(** * Movie database backend: the record store of [Backend_Project.py]

    The Python class [MovieDatabase] talks to one SQLite table, [movies].
    Every method opens a connection, runs one or two SQL statements, commits
    and turns the storage engine's exceptions into return values.

    The embedding has two layers, like the program:
    - the SQL statements the methods send ([sql_insert], [sql_update],
      [sql_delete], [sql_select_where], ...), given the meaning SQLite gives
      them on the [movies] table: rowids handed out by AUTOINCREMENT, the
      UNIQUE constraint on [movie_id], the LIKE operator, CAST ... AS REAL
      and the AVG aggregate;
    - the methods themselves ([add_movie], [view_all_movies],
      [search_movies], [update_movie], [delete_movie], [get_movie_by_id],
      [get_statistics]), written as state-passing functions over the
      database file, with the [try]/[except] branches of the source.

    Conventions.
    - A Python [str] is a Rocq [string], one [ascii] per character (code
      points below 256); SQLite folds case in LIKE for ASCII letters only.
    - [record_id] and the [id] column are [Z].
    - [search_movies] pastes the keys of its keyword arguments into the SQL
      text.  Keys that are bare words are covered ([read_key]); any other
      key is arbitrary SQL, and the search then answers [None].
    - Doubles are reached through an interface, [FloatOps]: the statements
      about [get_statistics] hold whatever the rounding of the engine and of
      Python's [round].  The sum of AVG is a left-to-right accumulation.
    - Storage failures that do not depend on the statement and the stored
      rows (I/O errors, a full disk, the engine's size limits) are outside
      the model.  A database file without the [movies] table is inside it. *)

From Stdlib Require Import ZArith QArith Ascii String DecimalString.
From stdpp Require Import base gmap strings list sorting.

Local Open Scope string_scope.

(** ** Rows and the database file *)

(** The eight caller-supplied columns of a row, all of SQL type TEXT. *)
Record movie := Movie {
  movie_id : string;
  movie_name : string;
  release_date : string;
  director : string;
  cast : string;
  budget : string;
  duration : string;
  rating : string
}.

(** A fetched row: the tuple [(id, movie_id, ..., rating)]. *)
Definition row : Type := Z * movie.

(** The [movies] table is a B-tree keyed by the rowid, for which [id] is
    an alias (INTEGER PRIMARY KEY).  [seq] is the entry of the table in
    [sqlite_sequence]: the largest rowid AUTOINCREMENT ever handed out. *)
Record table := Table {
  rows : gmap Z movie;
  seq : Z
}.

(** The database file: [None] while it holds no [movies] table. *)
Definition store : Type := option table.

Definition empty_table : table := Table ∅ 0.

(** Exceptions of the [sqlite3] module that the methods catch. *)
Inductive sqlite_error :=
  | IntegrityError (msg : string)
  | OperationalError (msg : string).

(** [str(e)] *)
Definition error_message (e : sqlite_error) : string :=
  match e with
  | IntegrityError msg => msg
  | OperationalError msg => msg
  end.

Definition no_such_table : sqlite_error :=
  OperationalError "no such table: movies".

Definition unique_failed : sqlite_error :=
  IntegrityError "UNIQUE constraint failed: movies.movie_id".

(** ** Table scans *)

Definition id_asc : relation row := λ r1 r2, (r1.1 ≤ r2.1)%Z.
Definition id_desc : relation row := λ r1 r2, (r2.1 ≤ r1.1)%Z.

#[global] Instance id_asc_dec : RelDecision id_asc.
Proof. intros r1 r2. unfold id_asc. apply _. Defined.
#[global] Instance id_desc_dec : RelDecision id_desc.
Proof. intros r1 r2. unfold id_desc. apply _. Defined.

(** A full scan visits the rows in rowid order. *)
Definition scan (t : table) : list row :=
  merge_sort id_asc (map_to_list (rows t)).

(** [ORDER BY id DESC] *)
Definition scan_desc (t : table) : list row :=
  merge_sort id_desc (map_to_list (rows t)).

(** Largest rowid present in the table (0 for an empty table). *)
Definition max_rowid (t : table) : Z :=
  foldr (λ r acc, Z.max r.1 acc) 0%Z (map_to_list (rows t)).

(** AUTOINCREMENT: one more than the largest rowid that ever existed. *)
Definition next_rowid (t : table) : Z :=
  (Z.max (seq t) (max_rowid t) + 1)%Z.

(** Does a row other than [except] hold this [movie_id]?  The UNIQUE index
    compares TEXT with the BINARY collation, that is, exactly. *)
Definition movie_id_taken (mid : string) (except : option Z) (t : table) : bool :=
  existsb (λ r : row,
             String.eqb (movie_id r.2) mid
             && negb (bool_decide (Some r.1 = except)))
          (scan t).

(** ** The SQL statements *)

(** [CREATE TABLE IF NOT EXISTS movies (...)] *)
Definition sql_create_table (s : store) : store :=
  match s with
  | None => Some empty_table
  | Some t => Some t
  end.

(** [INSERT INTO movies (movie_id, ..., rating) VALUES (?, ..., ?)].
    A statement that fails leaves the database as it was. *)
Definition sql_insert (m : movie) (s : store) : (sqlite_error + unit) * store :=
  match s with
  | None => (inl no_such_table, s)
  | Some t =>
      if movie_id_taken (movie_id m) None t then (inl unique_failed, s)
      else
        let i := next_rowid t in
        (inr (), Some (Table (<[i := m]> (rows t)) i))
  end.

(** [SELECT * FROM movies ORDER BY id DESC] *)
Definition sql_select_all (s : store) : (sqlite_error + list row) * store :=
  match s with
  | None => (inl no_such_table, s)
  | Some t => (inr (scan_desc t), s)
  end.

(** [UPDATE movies SET movie_id=?, ..., rating=? WHERE id=?]; the result
    is [cur.rowcount]. *)
Definition sql_update (rid : Z) (m : movie) (s : store) : (sqlite_error + Z) * store :=
  match s with
  | None => (inl no_such_table, s)
  | Some t =>
      match rows t !! rid with
      | None => (inr 0%Z, s)
      | Some _ =>
          if movie_id_taken (movie_id m) (Some rid) t then (inl unique_failed, s)
          else (inr 1%Z, Some (Table (<[rid := m]> (rows t)) (seq t)))
      end
  end.

(** [DELETE FROM movies WHERE id=?]; the result is [cur.rowcount]. *)
Definition sql_delete (rid : Z) (s : store) : (sqlite_error + Z) * store :=
  match s with
  | None => (inl no_such_table, s)
  | Some t =>
      match rows t !! rid with
      | None => (inr 0%Z, s)
      | Some _ => (inr 1%Z, Some (Table (delete rid (rows t)) (seq t)))
      end
  end.

(** [SELECT * FROM movies WHERE id=?] followed by [fetchone()] *)
Definition sql_select_by_id (rid : Z) (s : store) : (sqlite_error + option row) * store :=
  match s with
  | None => (inl no_such_table, s)
  | Some t => (inr ((λ m, (rid, m)) <$> rows t !! rid), s)
  end.

(** ** The methods of [MovieDatabase]: writes *)

Definition initialize_database (s : store) : store := sql_create_table s.

Definition required_msg : string := "Movie ID and Movie Name are required!".

Definition exists_msg (movie_id : string) : string :=
  "Movie ID '" ++ movie_id ++ "' already exists!".

(** [not s] for a Python string *)
Definition py_not (s : string) : bool := String.eqb s EmptyString.

Definition add_movie (movie_id movie_name release_date director cast budget
                      duration rating : string) (s : store)
  : (bool * string) * store :=
  if py_not movie_id || py_not movie_name then ((false, required_msg), s)
  else
    match sql_insert (Movie movie_id movie_name release_date director cast
                            budget duration rating) s with
    | (inr _, s') => ((true, "Movie added successfully!"), s')
    | (inl (IntegrityError _), s') => ((false, exists_msg movie_id), s')
    | (inl e, s') => ((false, "Database error: " ++ error_message e), s')
    end.

Definition update_movie (record_id : Z)
    (movie_id movie_name release_date director cast budget duration
     rating : string) (s : store)
  : (bool * string) * store :=
  if py_not movie_id || py_not movie_name then ((false, required_msg), s)
  else
    match sql_update record_id
            (Movie movie_id movie_name release_date director cast budget
                   duration rating) s with
    | (inr rowcount, s') =>
        if (rowcount =? 0)%Z then ((false, "No record found to update!"), s')
        else ((true, "Movie updated successfully!"), s')
    | (inl (IntegrityError _), s') => ((false, exists_msg movie_id), s')
    | (inl e, s') => ((false, "Update error: " ++ error_message e), s')
    end.

Definition delete_movie (record_id : Z) (s : store) : (bool * string) * store :=
  match sql_delete record_id s with
  | (inr rowcount, s') =>
      if (rowcount =? 0)%Z then ((false, "No record found to delete!"), s')
      else ((true, "Movie deleted successfully!"), s')
  | (inl e, s') => ((false, "Delete error: " ++ error_message e), s')
  end.

(** ** The methods of [MovieDatabase]: plain reads *)

Definition view_all_movies (s : store) : list row * store :=
  match sql_select_all s with
  | (inr fetched, s') => (fetched, s')
  | (inl _, s') => ([], s')
  end.

Definition get_movie_by_id (record_id : Z) (s : store) : option row * store :=
  match sql_select_by_id record_id s with
  | (inr fetched, s') => (fetched, s')
  | (inl _, s') => (None, s')
  end.

(** ** The LIKE operator

    SQLite's LIKE, without ESCAPE clause: [%] matches any run of
    characters, [_] matches one character, everything else matches itself
    up to the case of ASCII letters.  Both operands are read as C strings,
    so a NUL character ends them. *)

Definition is_upper (c : ascii) : bool :=
  ((65 <=? nat_of_ascii c) && (nat_of_ascii c <=? 90))%nat.

Definition to_lower (c : ascii) : ascii :=
  if is_upper c then ascii_of_nat (nat_of_ascii c + 32)%nat else c.

Definition char_eq_nocase (a b : ascii) : bool :=
  Ascii.eqb (to_lower a) (to_lower b).


Fixpoint like_match (p t : string) : bool :=
  match p with
  | EmptyString =>
      match t with
      | EmptyString => true
      | String _ _ => false
      end
  | String c p' =>
      if Ascii.eqb c "%" then
        (fix any_suffix (u : string) : bool :=
           like_match p' u
           || match u with
              | EmptyString => false
              | String _ u' => any_suffix u'
              end) t
      else
        match t with
        | EmptyString => false
        | String d t' =>
            (Ascii.eqb c "_" || char_eq_nocase c d) && like_match p' t'
        end
  end.

(** The text before the first NUL character. *)
Fixpoint c_str (s : string) : string :=
  match s with
  | EmptyString => EmptyString
  | String c s' => if Ascii.eqb c zero then EmptyString else String c (c_str s')
  end.

(** [txt LIKE pat] *)
Definition sql_like (pat txt : string) : bool :=
  like_match (c_str pat) (c_str txt).

(** ** Search: the statement built from the keyword arguments *)

Inductive column :=
  | Cid | Cmovie_id | Cmovie_name | Crelease_date | Cdirector
  | Ccast | Cbudget | Cduration | Crating.

Definition columns : list column :=
  [Cid; Cmovie_id; Cmovie_name; Crelease_date; Cdirector;
   Ccast; Cbudget; Cduration; Crating].

Definition column_name (c : column) : string :=
  match c with
  | Cid => "id"
  | Cmovie_id => "movie_id"
  | Cmovie_name => "movie_name"
  | Crelease_date => "release_date"
  | Cdirector => "director"
  | Ccast => "cast"
  | Cbudget => "budget"
  | Cduration => "duration"
  | Crating => "rating"
  end.

(** The integer [id] is converted to its decimal text before LIKE sees it. *)
Definition Z_to_text (z : Z) : string := NilEmpty.string_of_int (Z.to_int z).

Definition column_text (c : column) (r : row) : string :=
  match c with
  | Cid => Z_to_text r.1
  | Cmovie_id => movie_id r.2
  | Cmovie_name => movie_name r.2
  | Crelease_date => release_date r.2
  | Cdirector => director r.2
  | Ccast => cast r.2
  | Cbudget => budget r.2
  | Cduration => duration r.2
  | Crating => rating r.2
  end.

Fixpoint lower (s : string) : string :=
  match s with
  | EmptyString => EmptyString
  | String c s' => String (to_lower c) (lower s')
  end.

Definition is_letter (c : ascii) : bool :=
  let n := nat_of_ascii (to_lower c) in ((97 <=? n) && (n <=? 122))%nat.

Definition is_digit (c : ascii) : bool :=
  ((48 <=? nat_of_ascii c) && (nat_of_ascii c <=? 57))%nat.

Definition is_ident_start (c : ascii) : bool := is_letter c || Ascii.eqb c "_".

Fixpoint all_chars (f : ascii → bool) (s : string) : bool :=
  match s with
  | EmptyString => true
  | String c s' => f c && all_chars f s'
  end.

(** A bare word: a letter or underscore, then letters, digits, underscores. *)
Definition is_identifier (k : string) : bool :=
  match k with
  | EmptyString => false
  | String c k' => is_ident_start c && all_chars (λ d, is_ident_start d || is_digit d) k'
  end.

Definition mem_string (s : string) (l : list string) : bool :=
  existsb (String.eqb s) l.

(** Other names of the rowid, hence of [id]. *)
Definition rowid_aliases : list string := ["rowid"; "oid"; "_rowid_"].

(** Bare words that are expressions of their own although they name no
    column: literals and the clock. *)
Definition literal_words : list string :=
  ["true"; "false"; "null"; "current_date"; "current_time"; "current_timestamp"].

(** How SQLite reads a key once it is pasted in front of [LIKE ?]. *)
Inductive operand :=
  | Column (c : column)   (* a reference to a column of [movies] *)
  | Rejected              (* the statement does not compile *)
  | Unmodelled.           (* any other SQL text: outside this model *)

(** Names are matched without regard to ASCII case.  The word [cast] is
    taken for the start of a CAST expression, so that [cast LIKE ?] is a
    syntax error.  A bare word that is no column, no rowid alias and no
    literal is either an unknown column or a misplaced keyword: both make
    the statement fail to compile. *)
Definition read_key (key : string) : operand :=
  if negb (is_identifier key) then Unmodelled
  else
    let k := lower key in
    if String.eqb k "cast" then Rejected
    else if mem_string k rowid_aliases then Column Cid
    else
      match List.find (λ c, String.eqb k (column_name c)) columns with
      | Some c => Column c
      | None => if mem_string k literal_words then Unmodelled else Rejected
      end.

(** The loop over [kwargs.items()]: one [(key, pattern)] per non-empty
    value, in order. *)
Fixpoint conditions (kwargs : list (string * string)) : list (string * string) :=
  match kwargs with
  | [] => []
  | (key, value) :: rest =>
      if py_not value then conditions rest
      else (key, "%" ++ value ++ "%") :: conditions rest
  end.

Inductive where_clause :=
  | Compiled (cs : list (column * string))
  | CompileError
  | NotModelled.

(** [k1 LIKE ? OR k2 LIKE ? OR ...] *)
Fixpoint compile_where (conds : list (string * string)) : where_clause :=
  match conds with
  | [] => Compiled []
  | (key, pat) :: rest =>
      match read_key key, compile_where rest with
      | Unmodelled, _ => NotModelled
      | _, NotModelled => NotModelled
      | Rejected, _ => CompileError
      | _, CompileError => CompileError
      | Column c, Compiled cs => Compiled ((c, pat) :: cs)
      end
  end.

Definition where_holds (cs : list (column * string)) (r : row) : bool :=
  existsb (λ cp : column * string, sql_like cp.2 (column_text cp.1 r)) cs.

(** Outcome of [cur.execute(query, params)] and [fetchall()] in the search. *)
Inductive select_result :=
  | Fetched (rs : list row)
  | Failed                  (* sqlite3.Error *)
  | OutsideModel.

(** [SELECT * FROM movies WHERE k1 LIKE ? OR ...]: a full scan, in rowid
    order, keeping the rows on which some condition holds. *)
Definition sql_select_where (conds : list (string * string)) (s : store)
  : select_result * store :=
  match compile_where conds with
  | NotModelled => (OutsideModel, s)
  | CompileError => (Failed, s)
  | Compiled cs =>
      match s with
      | None => (Failed, s)
      | Some t => (Fetched (List.filter (where_holds cs) (scan t)), s)
      end
  end.

(** [search_movies], called with keyword arguments: the list of
    [(key, value)] pairs in call order.  The result is [None] exactly when
    a key with a non-empty value is SQL text outside the model. *)
Definition search_movies (kwargs : list (string * string)) (s : store)
  : option (list row) * store :=
  match conditions kwargs with
  | [] => let (fetched, s') := view_all_movies s in (Some fetched, s')
  | conds =>
      match sql_select_where conds s with
      | (Fetched fetched, s') => (Some fetched, s')
      | (Failed, s') => (Some [], s')
      | (OutsideModel, s') => (None, s')
      end
  end.

(** The module-level wrapper used by the form. *)
Definition SearchMovieData (movie_id movie_name release_date director cast
                            budget duration rating : string) (s : store)
  : option (list row) * store :=
  search_movies
    [("movie_id", movie_id); ("movie_name", movie_name);
     ("release_date", release_date); ("director", director);
     ("cast", cast); ("budget", budget); ("duration", duration);
     ("rating", rating)] s.

(** ** Statistics: CAST ... AS REAL, AVG and [round] *)

(** The floating-point operations the statistics query goes through.  They
    are an interface: nothing below depends on how doubles round. *)
Class FloatOps (F : Type) := {
  (** the double SQLite computes for the decimal
      [(if neg then -1 else 1) * m * 10^e] *)
  f_of_decimal : bool → Z → Z → F;
  (** [(double) n] for a row count *)
  f_of_count : Z → F;
  f_add : F → F → F;
  f_div : F → F → F;
  (** [not x] for a Python float *)
  f_is_zero : F → bool;
  (** [round(x, ndigits)] *)
  f_round : F → Z → F
}.

(** A Python number: [0] and [0.0] are different objects. *)
Inductive py_number (F : Type) :=
  | PyInt (z : Z)
  | PyFloat (x : F).
Arguments PyInt {F} z.
Arguments PyFloat {F} x.

(** The dictionary returned by [get_statistics]. *)
Record statistics (F : Type) := Statistics {
  total_movies : Z;
  average_rating : py_number F
}.
Arguments Statistics {F} _ _.
Arguments total_movies {F} _.
Arguments average_rating {F} _.

(** *** Reading a number off the front of a text

    SQLite converts TEXT to REAL by reading the longest prefix that looks
    like a number: blanks, a sign, digits, a fraction, an exponent.  What
    follows is ignored, and a text without such a prefix reads as zero. *)

Definition is_space (c : ascii) : bool :=
  let n := nat_of_ascii c in (Nat.eqb n 32 || ((9 <=? n) && (n <=? 13)))%nat.

Fixpoint skip_spaces (s : string) : string :=
  match s with
  | EmptyString => EmptyString
  | String c s' => if is_space c then skip_spaces s' else s
  end.

Definition digit_value (c : ascii) : Z := (Z.of_nat (nat_of_ascii c) - 48)%Z.

(** Reads a run of digits onto the significand [m]; [d] counts them. *)
Fixpoint read_digits (m d : Z) (s : string) : Z * Z * string :=
  match s with
  | EmptyString => (m, d, s)
  | String c s' =>
      if is_digit c then read_digits (m * 10 + digit_value c)%Z (d + 1)%Z s'
      else (m, d, s)
  end.

(** Reads the digits of an exponent, which saturates at 10000. *)
Fixpoint read_exponent (e : Z) (s : string) : Z :=
  match s with
  | EmptyString => e
  | String c s' =>
      if is_digit c
      then read_exponent (if (e <? 10000)%Z then e * 10 + digit_value c else 10000)%Z s'
      else e
  end.

(** An optional sign: [true] for a minus. *)
Definition read_sign (s : string) : bool * string :=
  match s with
  | EmptyString => (false, s)
  | String c s' =>
      if Ascii.eqb c "-" then (true, s')
      else if Ascii.eqb c "+" then (false, s')
      else (false, s)
  end.

(** An optional decimal point and the digits after it, read onto the
    significand [m] and counted. *)
Definition read_fraction (m : Z) (s : string) : Z * Z * string :=
  match s with
  | EmptyString => (m, 0%Z, s)
  | String c s' => if Ascii.eqb c "." then read_digits m 0 s' else (m, 0%Z, s)
  end.

(** An optional exponent: [e] or [E], a sign, digits. *)
Definition read_exponent_part (s : string) : Z :=
  match s with
  | EmptyString => 0%Z
  | String c s' =>
      if Ascii.eqb (to_lower c) "e" then
        let (eneg, s'') := read_sign s' in
        let e := read_exponent 0 s'' in
        if eneg then (- e)%Z else e
      else 0%Z
  end.

(** The prefix of [s] as sign, significand and decimal exponent. *)
Definition parse_real (s : string) : bool * Z * Z :=
  let (neg, s1) := read_sign (skip_spaces s) in
  let '(m1, _, s2) := read_digits 0 0 s1 in
  let '(m, d, s3) := read_fraction m1 s2 in
  (neg, m, (read_exponent_part s3 - d)%Z).

Section Statistics.
Context {F : Type} `{FloatOps F}.

(** [CAST(txt AS REAL)] *)
Definition cast_real (txt : string) : F :=
  let '(neg, m, e) := parse_real txt in f_of_decimal neg m e.

(** The AVG aggregate: a running sum and a count; NULL over no rows. *)
Definition avg_step (acc : F * Z) (x : F) : F * Z :=
  (f_add acc.1 x, (acc.2 + 1)%Z).

Definition sql_avg (xs : list F) : option F :=
  let (sum, cnt) := foldl avg_step (f_of_decimal false 0 0, 0%Z) xs in
  if (cnt =? 0)%Z then None else Some (f_div sum (f_of_count cnt)).

(** [SELECT COUNT( * ) FROM movies] *)
Definition sql_count (s : store) : (sqlite_error + Z) * store :=
  match s with
  | None => (inl no_such_table, s)
  | Some t => (inr (Z.of_nat (size (rows t))), s)
  end.

(** [SELECT AVG(CAST(rating AS REAL)) FROM movies WHERE rating != ''] *)
Definition sql_avg_rating (s : store) : (sqlite_error + option F) * store :=
  match s with
  | None => (inl no_such_table, s)
  | Some t =>
      (inr (sql_avg
              (map (λ r : row, cast_real (rating r.2))
                   (List.filter (λ r : row, negb (String.eqb (rating r.2) EmptyString))
                                (scan t)))),
       s)
  end.

Definition get_statistics (s : store) : statistics F * store :=
  match sql_count s with
  | (inl _, s1) => (Statistics 0 (PyInt 0), s1)
  | (inr total, s1) =>
      match sql_avg_rating s1 with
      | (inl _, s2) => (Statistics 0 (PyInt 0), s2)
      | (inr avg_rating, s2) =>
          (Statistics total
             match avg_rating with
             | Some x => if f_is_zero x then PyInt 0 else PyFloat (f_round x 2)
             | None => PyInt 0
             end,
           s2)
      end
  end.
End Statistics.

(** *** Exact arithmetic as an instance

    Rationals stand in for doubles where a statement needs numbers: the
    operations are exact and [round] rounds half to even.  On values that
    doubles hold exactly, and whose sum and mean they hold exactly, this is
    what the program computes. *)

Definition Q_pow10 (e : Z) : Q := Qpower (inject_Z 10) e.

Definition Q_of_decimal (neg : bool) (m e : Z) : Q :=
  Qred ((if neg then Qopp else id) (inject_Z m * Q_pow10 e)%Q).

(** Nearest integer, ties to even. *)
Definition Q_round_half_even (q : Q) : Z :=
  let a := Qnum q in
  let b := Zpos (Qden q) in
  let fl := (a / b)%Z in
  let r := (a mod b)%Z in
  if (2 * r <? b)%Z then fl
  else if (b <? 2 * r)%Z then (fl + 1)%Z
  else if Z.even fl then fl else (fl + 1)%Z.

Definition Q_round (q : Q) (ndigits : Z) : Q :=
  Qred (inject_Z (Q_round_half_even (q * Q_pow10 ndigits)%Q) / Q_pow10 ndigits)%Q.

#[global] Instance Q_FloatOps : FloatOps Q := {
  f_of_decimal := Q_of_decimal;
  f_of_count := inject_Z;
  f_add := λ x y, Qred (x + y)%Q;
  f_div := λ x y, Qred (x / y)%Q;
  f_is_zero := λ x, Qeq_bool x 0;
  f_round := Q_round
}.

(** ** Vocabulary of the specification *)

(** [v] is a prefix of [t], characters compared with [eqc]. *)
Fixpoint prefix_by (eqc : ascii → ascii → bool) (v t : string) : bool :=
  match v, t with
  | EmptyString, _ => true
  | String a v', String b t' => eqc a b && prefix_by eqc v' t'
  | String _ _, EmptyString => false
  end.

(** [v] occurs somewhere in [t]. *)
Fixpoint contains_by (eqc : ascii → ascii → bool) (v t : string) : bool :=
  prefix_by eqc v t
  || match t with
     | EmptyString => false
     | String _ t' => contains_by eqc v t'
     end.

Definition contains_nocase : string → string → bool := contains_by char_eq_nocase.


(** Empty or made of white space only. *)
Definition blank (s : string) : bool := all_chars is_space s.


(** The UNIQUE constraint as a property of a table. *)
Definition unique_movie_ids (t : table) : Prop :=
  ∀ i j m m', rows t !! i = Some m → rows t !! j = Some m' →
              movie_id m = movie_id m' → i = j.

(** [add_movie] applied to the fields of a record. *)
Definition add_record (m : movie) (s : store) : (bool * string) * store :=
  add_movie (movie_id m) (movie_name m) (release_date m) (director m)
            (cast m) (budget m) (duration m) (rating m) s.

(** A run of calls to [add_movie]; the number counts the successful ones. *)
Fixpoint add_all (ms : list movie) (s : store) : nat * store :=
  match ms with
  | [] => (0, s)
  | m :: rest =>
      let '((ok, _), s1) := add_record m s in
      let (n, s2) := add_all rest s1 in
      (if ok then S n else n, s2)
  end.

(** Sample data. *)
Definition titled (mid name rated : string) : movie :=
  Movie mid name EmptyString EmptyString EmptyString EmptyString EmptyString rated.

Definition alien : movie :=
  Movie "M1" "Alien" "1979" "Ridley Scott" "Sigourney Weaver" "11" "117" "4".

Definition heat : movie :=
  Movie "M2" "Heat" "1995" "Michael Mann" "Al Pacino" "60" "170" "4.5".

Definition one_movie : store := Some (Table {[ 1%Z := alien ]} 1).

Definition two_movies : store :=
  Some (Table (<[ 2%Z := heat ]> {[ 1%Z := alien ]}) 2).

(** Four records with the ratings 4, empty, 2 and abc. *)
Definition four_ratings : store :=
  (add_all [titled "M1" "A" "4"; titled "M2" "B" EmptyString;
            titled "M3" "C" "2"; titled "M4" "D" "abc"]
           (initialize_database None)).2.

(** A value is found in a text when it occurs in it up to the case of
    ASCII letters; the text of a field ends at its first NUL. *)
Definition found_nocase (value text : string) : bool :=
  contains_nocase value (c_str text).



(** A bare word that names nothing SQLite knows in [movies]: no column
    and no rowid alias (names compared without case), and no literal. *)
Definition unknown_word (key : string) : bool :=
  is_identifier key
  && negb (mem_string (lower key)
             (map column_name columns ++ rowid_aliases ++ literal_words)).

(** The ratings of the stored records, in rowid order, and those of them
    that are not empty. *)
Definition ratings (t : table) : list string :=
  map (λ r : row, rating r.2) (scan t).

Definition nonempty (l : list string) : list string :=
  List.filter (λ x, negb (py_not x)) l.

(** A text in which no digit occurs. *)
Definition no_digit (txt : string) : bool :=
  all_chars (λ c, negb (is_digit c)) txt.

Section StatisticsVocabulary.
Context {F : Type} `{FloatOps F}.

(** Sum from zero, divided by the number of values. *)
Definition mean (xs : list F) : F :=
  f_div (foldl f_add (f_of_decimal false 0 0) xs)
        (f_of_count (Z.of_nat (length xs))).

(** What [get_statistics] reports for an average: the integer [0] for
    none or a zero one, else the average rounded to two places. *)
Definition reported (avg : option F) : py_number F :=
  match avg with
  | None => PyInt 0
  | Some x => if f_is_zero x then PyInt 0 else PyFloat (f_round x 2)
  end.
End StatisticsVocabulary.

(** ** Construction *)

(** [MovieDatabase.__init__]: the constructor's only action on the file. *)
Definition MovieDatabase_init (s : store) : store := initialize_database s.

(** ** Runs of writes *)

(** [update_movie] applied to the fields of a record. *)
Definition update_record (record_id : Z) (m : movie) (s : store)
  : (bool * string) * store :=
  update_movie record_id (movie_id m) (movie_name m) (release_date m)
               (director m) (cast m) (budget m) (duration m) (rating m) s.

(** One call of a writing method. *)
Inductive request :=
  | Add (m : movie)
  | Update (record_id : Z) (m : movie)
  | Delete (record_id : Z).

Definition serve (q : request) (s : store) : (bool * string) * store :=
  match q with
  | Add m => add_record m s
  | Update record_id m => update_record record_id m s
  | Delete record_id => delete_movie record_id s
  end.

(** The store after a run of calls, whatever they returned. *)
Fixpoint serve_all (qs : list request) (s : store) : store :=
  match qs with
  | [] => s
  | q :: rest => serve_all rest (serve q s).2
  end.

(** What holds of every table the methods build: [movie_id] is a key,
    [movie_id] and [movie_name] are never empty, and the rowids in use are
    positive and were handed out by AUTOINCREMENT. *)
Record well_formed (t : table) : Prop := WellFormed {
  wf_unique : unique_movie_ids t;
  wf_required : ∀ i m, rows t !! i = Some m →
                       movie_id m ≠ EmptyString ∧ movie_name m ≠ EmptyString;
  wf_seq : ∀ i m, rows t !! i = Some m → (1 ≤ i ≤ seq t)%Z
}.


(** The record in place of the row with this id. *)
Definition replace_row (record_id : Z) (m : movie) (r : row) : row :=
  if bool_decide (r.1 = record_id) then (record_id, m) else r.

(** [n], [n-1], ..., [1] *)
Fixpoint countdown (n : nat) : list Z :=
  match n with
  | O => []
  | S k => Z.of_nat n :: countdown k
  end.



(** * Properties *)

(** ** Scans *)

Section scans.
Implicit Types (t : table) (r : row) (i : Z) (m : movie).

Lemma scan_perm t : scan t ≡ₚ map_to_list (rows t).
Proof. apply merge_sort_Permutation. Qed.

Lemma scan_desc_perm t : scan_desc t ≡ₚ map_to_list (rows t).
Proof. apply merge_sort_Permutation. Qed.

Lemma elem_of_scan t i m : (i, m) ∈ scan t ↔ rows t !! i = Some m.
Proof. rewrite scan_perm. apply elem_of_map_to_list. Qed.

Lemma elem_of_scan_desc t i m : (i, m) ∈ scan_desc t ↔ rows t !! i = Some m.
Proof. rewrite scan_desc_perm. apply elem_of_map_to_list. Qed.

Lemma length_scan_desc t : length (scan_desc t) = size (rows t).
Proof. rewrite scan_desc_perm. apply length_map_to_list. Qed.

Lemma NoDup_ids_scan_desc t : NoDup (scan_desc t).*1.
Proof. rewrite scan_desc_perm. apply NoDup_fst_map_to_list. Qed.

#[local] Instance id_desc_total : Total id_desc.
Proof. intros r1 r2. unfold id_desc. lia. Qed.

#[local] Instance id_desc_trans : Transitive id_desc.
Proof. intros r1 r2 r3. unfold id_desc. lia. Qed.

(** Distinct keys turn a weakly sorted list into a strictly sorted one. *)
Lemma StronglySorted_strict (l : list row) :
  StronglySorted id_desc l → NoDup l.*1 →
  StronglySorted (λ r1 r2, (r2.1 < r1.1)%Z) l.
Proof.
  induction 1 as [|r l Hs IH Hall]; intros Hnd; [constructor|].
  rewrite fmap_cons, NoDup_cons in Hnd. destruct Hnd as [Hr Hnd].
  constructor; [by apply IH|].
  rewrite Forall_forall in Hall |- *. intros r' Hr'.
  specialize (Hall r' Hr'). unfold id_desc in Hall.
  assert (r'.1 ≠ r.1); [|lia].
  intros Heq. apply Hr. rewrite <- Heq. by apply list_elem_of_fmap_2.
Qed.

Lemma scan_desc_sorted t :
  StronglySorted (λ r1 r2, (r2.1 < r1.1)%Z) (scan_desc t).
Proof.
  apply StronglySorted_strict; [|apply NoDup_ids_scan_desc].
  apply StronglySorted_merge_sort; apply _.
Qed.

Lemma max_rowid_ge t i m : rows t !! i = Some m → (i ≤ max_rowid t)%Z.
Proof.
  rewrite <- elem_of_map_to_list. unfold max_rowid.
  induction (map_to_list (rows t)) as [|r l IH]; [by intros ?%elem_of_nil|].
  intros [<-|Hin]%elem_of_cons; simpl; [lia|]. specialize (IH Hin). lia.
Qed.

Lemma next_rowid_fresh t : rows t !! next_rowid t = None.
Proof.
  destruct (rows t !! next_rowid t) as [m|] eqn:E; [|done].
  apply max_rowid_ge in E. unfold next_rowid in E. lia.
Qed.

Lemma next_rowid_above t i m : rows t !! i = Some m → (i < next_rowid t)%Z.
Proof. intros Hi%max_rowid_ge. unfold next_rowid. lia. Qed.

Lemma movie_id_taken_true mid exc t :
  movie_id_taken mid exc t = true ↔
  ∃ i m, rows t !! i = Some m ∧ movie_id m = mid ∧ Some i ≠ exc.
Proof.
  unfold movie_id_taken. rewrite existsb_exists. split.
  - intros ([i m] & Hin & Hb). apply list_elem_of_In, elem_of_scan in Hin.
    apply andb_true_iff in Hb as [Hid Hex]. apply String.eqb_eq in Hid.
    apply negb_true_iff, bool_decide_eq_false in Hex. eauto.
  - intros (i & m & Hin & Hid & Hex). exists (i, m). split.
    + by apply list_elem_of_In, elem_of_scan.
    + simpl. apply andb_true_iff. split; [by apply String.eqb_eq|].
      by apply negb_true_iff, bool_decide_eq_false.
Qed.

Lemma movie_id_taken_false mid exc t :
  movie_id_taken mid exc t = false ↔
  ∀ i m, rows t !! i = Some m → movie_id m = mid → Some i = exc.
Proof.
  rewrite <- not_true_iff_false, movie_id_taken_true. split.
  - intros Hno i m Hi Hm. destruct (decide (Some i = exc)); [done|].
    exfalso. apply Hno. eauto.
  - intros Hall (i & m & Hi & Hm & Hex). eauto.
Qed.
End scans.

(** ** LIKE with a pattern [%value%] *)

Section like.
Implicit Types (p v t u : string).







End like.

(** ** The compiled WHERE clause *)

Section search.
Implicit Types (kwargs : list (string * string)) (t : table) (s : store).


End search.

Section search_claims.
Implicit Types (kwargs : list (string * string)) (t : table) (s : store).


Lemma NoDup_scan_desc t : NoDup (scan_desc t).
Proof. rewrite scan_desc_perm. apply NoDup_map_to_list. Qed.


Lemma find_none_mem {A} (f : A → string) k (l : list A) :
  mem_string k (map f l) = false →
  List.find (λ c, String.eqb k (f c)) l = None.
Proof.
  unfold mem_string. induction l as [|c l IH]; simpl; [done|].
  intros [Hc Hl]%orb_false_iff. rewrite Hc. auto.
Qed.

Lemma read_key_unknown key : unknown_word key = true → read_key key = Rejected.
Proof.
  unfold unknown_word, read_key, mem_string.
  intros [Hid Hmem]%andb_true_iff. rewrite Hid. simpl negb.
  apply negb_true_iff in Hmem. rewrite !existsb_app in Hmem.
  apply orb_false_iff in Hmem as [Hcols Hmem].
  apply orb_false_iff in Hmem as [Halias Hlit].
  cbv zeta. destruct (String.eqb (lower key) "cast"); [done|].
  unfold mem_string. rewrite Halias, Hlit.
  by rewrite (find_none_mem column_name _ columns Hcols).
Qed.

Lemma compile_rejected key pat conds :
  (key, pat) ∈ conds → read_key key = Rejected →
  match compile_where conds with Compiled _ => False | _ => True end.
Proof.
  intros Hin Hkey. induction conds as [|[k p] conds IH]; [by apply elem_of_nil in Hin|].
  apply elem_of_cons in Hin as [[= <- <-]|Hin]; simpl.
  - rewrite Hkey. by destruct (compile_where conds).
  - specialize (IH Hin). destruct (read_key k), (compile_where conds); done.
Qed.

Lemma conditions_elem key value kwargs :
  (key, value) ∈ kwargs → value ≠ EmptyString →
  (key, "%" ++ value ++ "%") ∈ conditions kwargs.
Proof.
  intros Hin Hv. induction kwargs as [|[k v] kwargs IH]; [by apply elem_of_nil in Hin|].
  apply elem_of_cons in Hin as [[= <- <-]|Hin]; simpl.
  - destruct (py_not value) eqn:E; [by apply String.eqb_eq in E|]. apply list_elem_of_here.
  - destruct (py_not v); [auto|]. apply list_elem_of_further; auto.
Qed.
End search_claims.




(** The form's search by cast: the statement does not compile, so nothing
    is returned although a stored record matches. *)
Lemma search_by_cast_returns_nothing :
  SearchMovieData EmptyString EmptyString EmptyString EmptyString "Weaver"
                  EmptyString EmptyString EmptyString one_movie
  = (Some [], one_movie)
  ∧ found_nocase "Weaver" (cast alien) = true.
Proof. split; vm_compute; reflexivity. Qed.

(** C9, as amended.  A filter whose key is a bare word naming no column and
    no rowid alias of [movies] (names without regard to case) and not one of
    the words [true], [false], [null], [current_date], [current_time],
    [current_timestamp], with a non-empty value, makes the statement fail
    to compile: [search_movies] returns the empty list and the store is as
    before.  Other filters may come with it, as long as their keys are
    within the model. *)
Theorem search_movies_unknown_key (key value : string)
    (kwargs : list (string * string)) (s : store) :
  unknown_word key = true →
  value ≠ EmptyString →
  (key, value) ∈ kwargs →
  (search_movies kwargs s).1 ≠ None →
  search_movies kwargs s = (Some [], s).
Proof.
  intros Hkey%read_key_unknown Hv Hin Hmodel.
  pose proof (conditions_elem key value kwargs Hin Hv) as Hcond.
  pose proof (compile_rejected key _ _ Hcond Hkey) as Hcomp.
  unfold search_movies, sql_select_where in *.
  destruct (conditions kwargs) as [|c conds]; [by apply elem_of_nil in Hcond|].
  destruct (compile_where (c :: conds)); [done|done|].
  by destruct Hmodel.
Qed.

Lemma search_movies_unknown_key_witness :
  search_movies [("movie_name", "Alien"); ("genre", "horror")] one_movie
  = (Some [], one_movie).
Proof.
  apply (search_movies_unknown_key "genre" "horror").
  - vm_compute; reflexivity.
  - discriminate.
  - apply list_elem_of_further, list_elem_of_here.
  - vm_compute. discriminate.
Defined.

(** C9 as stated fails on [rowid]: no field of [movies] has that name, yet
    SQLite reads it as the [id] column and the search returns rows. *)
Lemma search_movies_rowid_counterexample :
  mem_string "rowid" (map column_name columns) = false
  ∧ search_movies [("rowid", "1")] one_movie = (Some [(1%Z, alien)], one_movie).
Proof. split; vm_compute; reflexivity. Qed.

(** ** Writes *)

Section writes.
Implicit Types (t : table) (s : store) (m : movie) (i rid : Z).

Lemma py_not_false (x : string) : x ≠ EmptyString → py_not x = false.
Proof. intros Hx. unfold py_not. by apply String.eqb_neq. Qed.

Lemma sql_insert_fresh m t :
  (∀ i m', rows t !! i = Some m' → movie_id m' ≠ movie_id m) →
  sql_insert m (Some t)
  = (inr (), Some (Table (<[next_rowid t := m]> (rows t)) (next_rowid t))).
Proof.
  intros Hfresh. unfold sql_insert.
  destruct (movie_id_taken (movie_id m) None t) eqn:E; [|done].
  apply movie_id_taken_true in E as (i & m' & Hi & Hm & _). by destruct (Hfresh i m' Hi).
Qed.

Lemma sql_insert_taken m t i m' :
  rows t !! i = Some m' → movie_id m' = movie_id m →
  sql_insert m (Some t) = (inl unique_failed, Some t).
Proof.
  intros Hi Hm. unfold sql_insert.
  destruct (movie_id_taken (movie_id m) None t) eqn:E; [done|].
  rewrite movie_id_taken_false in E. by specialize (E i m' Hi Hm).
Qed.

Lemma sql_update_taken rid m t i m' :
  is_Some (rows t !! rid) → i ≠ rid →
  rows t !! i = Some m' → movie_id m' = movie_id m →
  sql_update rid m (Some t) = (inl unique_failed, Some t).
Proof.
  intros [m0 Hrid] Hne Hi Hm. unfold sql_update. rewrite Hrid.
  destruct (movie_id_taken (movie_id m) (Some rid) t) eqn:E; [done|].
  rewrite movie_id_taken_false in E. specialize (E i m' Hi Hm). congruence.
Qed.

Lemma sql_update_own rid m t m0 :
  unique_movie_ids t →
  rows t !! rid = Some m0 → movie_id m0 = movie_id m →
  sql_update rid m (Some t)
  = (inr 1%Z, Some (Table (<[rid := m]> (rows t)) (seq t))).
Proof.
  intros Huniq Hrid Hm. unfold sql_update. rewrite Hrid.
  destruct (movie_id_taken (movie_id m) (Some rid) t) eqn:E; [|done].
  apply movie_id_taken_true in E as (i & m' & Hi & Hm' & Hne).
  destruct Hne. f_equal. apply (Huniq i rid m' m0); congruence.
Qed.

(** The writes keep the UNIQUE constraint. *)
Lemma sql_insert_unique m t e t' :
  unique_movie_ids t → sql_insert m (Some t) = (e, Some t') → unique_movie_ids t'.
Proof.
  intros Huniq. unfold sql_insert.
  destruct (movie_id_taken (movie_id m) None t) eqn:E; [by intros [= _ <-]|].
  intros [= _ <-]. rewrite movie_id_taken_false in E.
  intros i j m1 m2. simpl. rewrite !lookup_insert.
  repeat case_decide; subst; intros; simplify_eq; try done.
  - by specialize (E j m2 ltac:(done) ltac:(done)).
  - by specialize (E i m1 ltac:(done) ltac:(done)).
  - by eapply Huniq.
Qed.

Lemma sql_update_unique rid m t e t' :
  unique_movie_ids t → sql_update rid m (Some t) = (e, Some t') → unique_movie_ids t'.
Proof.
  intros Huniq. unfold sql_update.
  destruct (rows t !! rid); [|by intros [= _ <-]].
  destruct (movie_id_taken (movie_id m) (Some rid) t) eqn:E; [by intros [= _ <-]|].
  intros [= _ <-]. rewrite movie_id_taken_false in E.
  intros i j m1 m2. simpl. rewrite !lookup_insert.
  repeat case_decide; subst; intros; simplify_eq; try done.
  - by specialize (E j m2 ltac:(done) ltac:(done)) as [= ->].
  - by specialize (E i m1 ltac:(done) ltac:(done)) as [= ->].
  - by eapply Huniq.
Qed.

Lemma sql_delete_unique rid t e t' :
  unique_movie_ids t → sql_delete rid (Some t) = (e, Some t') → unique_movie_ids t'.
Proof.
  intros Huniq. unfold sql_delete.
  destruct (rows t !! rid); intros [= _ <-]; [|done].
  intros i j m1 m2. simpl. intros Hi%lookup_delete_Some Hj%lookup_delete_Some.
  destruct Hi, Hj. by eapply Huniq.
Qed.
End writes.

(** C2, as amended.  When [movie_id] or [movie_name] is the empty string,
    [add_movie] and [update_movie] fail with the message that both are
    required, and the store is unchanged. *)
Theorem required_fields_checked (record_id : Z)
    (mid name rel dir cst bud dur rat : string) (s : store) :
  mid = EmptyString ∨ name = EmptyString →
  add_movie mid name rel dir cst bud dur rat s = ((false, required_msg), s)
  ∧ update_movie record_id mid name rel dir cst bud dur rat s
    = ((false, required_msg), s).
Proof.
  intros Hempty. unfold add_movie, update_movie.
  assert (py_not mid || py_not name = true) as ->; [|done].
  destruct Hempty as [-> | ->]; [done|]. apply orb_true_r.
Qed.

Lemma required_fields_checked_witness :
  add_movie "M7" EmptyString "1982" "Ridley Scott" EmptyString EmptyString
            EmptyString "5" one_movie = ((false, required_msg), one_movie)
  ∧ update_movie 1 "M7" EmptyString "1982" "Ridley Scott" EmptyString
                 EmptyString EmptyString "5" one_movie
    = ((false, required_msg), one_movie).
Proof. apply required_fields_checked. right. reflexivity. Defined.

(** C2 as stated fails on white space: a [movie_id] made of one blank is
    not empty for the check, so it is inserted, and written over a stored
    record by an update. *)
Lemma blank_movie_id_counterexample :
  blank " " = true
  ∧ add_movie " " "Alien" EmptyString EmptyString EmptyString EmptyString
              EmptyString EmptyString (Some empty_table)
    = ((true, "Movie added successfully!"),
       Some (Table {[ 1%Z := titled " " "Alien" EmptyString ]} 1))
  ∧ update_movie 1 " " "Alien" EmptyString EmptyString EmptyString
                 EmptyString EmptyString EmptyString one_movie
    = ((true, "Movie updated successfully!"),
       Some (Table {[ 1%Z := titled " " "Alien" EmptyString ]} 1)).
Proof. split_and!; vm_compute; reflexivity. Qed.

(** C4.  With both required fields present: [add_movie] with the
    [movie_id] of a stored record fails with the message that the id
    exists, and the store (so the number of records) is unchanged;
    [update_movie] of a stored record with the [movie_id] of another
    stored record fails in the same way, and the store is unchanged;
    [update_movie] of a stored record that keeps its [movie_id] succeeds
    and overwrites the record in place. *)
Theorem duplicate_movie_id (record_id : Z)
    (mid name rel dir cst bud dur rat : string) (t : table) :
  mid ≠ EmptyString → name ≠ EmptyString →
  ((∃ i m, rows t !! i = Some m ∧ movie_id m = mid) →
   add_movie mid name rel dir cst bud dur rat (Some t)
   = ((false, exists_msg mid), Some t))
  ∧ (is_Some (rows t !! record_id) →
     (∃ i m, i ≠ record_id ∧ rows t !! i = Some m ∧ movie_id m = mid) →
     update_movie record_id mid name rel dir cst bud dur rat (Some t)
     = ((false, exists_msg mid), Some t))
  ∧ (unique_movie_ids t →
     (∃ m, rows t !! record_id = Some m ∧ movie_id m = mid) →
     update_movie record_id mid name rel dir cst bud dur rat (Some t)
     = ((true, "Movie updated successfully!"),
        Some (Table (<[record_id := Movie mid name rel dir cst bud dur rat]> (rows t))
                    (seq t)))).
Proof.
  intros Hmid%py_not_false Hname%py_not_false.
  unfold add_movie, update_movie. rewrite Hmid, Hname. cbn [orb].
  split_and!.
  - intros (i & m & Hi & Hm). by erewrite sql_insert_taken.
  - intros Hrid (i & m & Hne & Hi & Hm). by erewrite sql_update_taken.
  - intros Huniq (m & Hrid & Hm). by erewrite sql_update_own.
Qed.

Lemma unique_two_movies : unique_movie_ids (Table (<[ 2%Z := heat ]> {[ 1%Z := alien ]}) 2).
Proof.
  intros i j m m'. simpl. rewrite !lookup_insert, !lookup_singleton.
  repeat case_decide; subst; intros; simplify_eq; done.
Qed.

Lemma duplicate_movie_id_witness :
  add_movie "M1" "Aliens" "1986" EmptyString EmptyString EmptyString
            EmptyString EmptyString two_movies
  = ((false, exists_msg "M1"), two_movies)
  ∧ update_movie 2 "M1" "Aliens" "1986" EmptyString EmptyString EmptyString
                 EmptyString EmptyString two_movies
    = ((false, exists_msg "M1"), two_movies)
  ∧ update_movie 1 "M1" "Aliens" "1986" EmptyString EmptyString EmptyString
                 EmptyString EmptyString two_movies
    = ((true, "Movie updated successfully!"),
       Some (Table (<[ 1%Z := Movie "M1" "Aliens" "1986" EmptyString EmptyString
                                    EmptyString EmptyString EmptyString ]>
                      (<[ 2%Z := heat ]> {[ 1%Z := alien ]})) 2)).
Proof.
  split_and!.
  - apply (duplicate_movie_id 0 "M1" "Aliens"); [discriminate..|].
    exists 1%Z, alien. split; reflexivity.
  - apply (duplicate_movie_id 2 "M1" "Aliens"); [discriminate..| |].
    + exists heat. reflexivity.
    + exists 1%Z, alien. split_and!; [discriminate|reflexivity..].
  - apply (duplicate_movie_id 1 "M1" "Aliens" "1986"); [discriminate..| |].
    + apply unique_two_movies.
    + exists alien. split; reflexivity.
Defined.



(** C6.  With both required fields present and a [movie_id] that no stored
    record holds, [add_movie] succeeds; the new record gets an id that no
    stored record has, larger than every id in use and than every id handed
    out before; and [get_movie_by_id] on that id returns the record with
    exactly the fields given. *)
Theorem add_then_get (mid name rel dir cst bud dur rat : string) (t : table) :
  mid ≠ EmptyString → name ≠ EmptyString →
  (∀ i m, rows t !! i = Some m → movie_id m ≠ mid) →
  ∃ (new_id : Z) (s' : store),
    add_movie mid name rel dir cst bud dur rat (Some t)
    = ((true, "Movie added successfully!"), s')
    ∧ rows t !! new_id = None
    ∧ (∀ i m, rows t !! i = Some m → (i < new_id)%Z)
    ∧ (seq t < new_id)%Z
    ∧ get_movie_by_id new_id s'
      = (Some (new_id, Movie mid name rel dir cst bud dur rat), s').
Proof.
  intros Hmid%py_not_false Hname%py_not_false Hfresh.
  exists (next_rowid t). eexists. split_and!.
  - unfold add_movie. rewrite Hmid, Hname. cbn [orb].
    by rewrite sql_insert_fresh.
  - apply next_rowid_fresh.
  - apply next_rowid_above.
  - unfold next_rowid. lia.
  - unfold get_movie_by_id, sql_select_by_id. cbn [rows].
    by rewrite lookup_insert_eq.
Qed.

Lemma add_then_get_witness :
  ∃ (new_id : Z) (s' : store),
    add_movie "M3" "Blade Runner" "1982" "Ridley Scott" "Harrison Ford" "30"
              "117" "5" two_movies
    = ((true, "Movie added successfully!"), s')
    ∧ get_movie_by_id new_id s'
      = (Some (new_id, Movie "M3" "Blade Runner" "1982" "Ridley Scott"
                             "Harrison Ford" "30" "117" "5"), s').
Proof.
  destruct (add_then_get "M3" "Blade Runner" "1982" "Ridley Scott"
              "Harrison Ford" "30" "117" "5"
              (Table (<[ 2%Z := heat ]> {[ 1%Z := alien ]}) 2))
    as (new_id & s' & Hadd & _ & _ & _ & Hget).
  - discriminate.
  - discriminate.
  - intros i m. simpl. rewrite lookup_insert, lookup_singleton.
    repeat case_decide; intros [= <-]; discriminate.
  - exists new_id, s'. split; [exact Hadd|exact Hget].
Defined.

(** ** Listing *)

Section listing.
Implicit Types (t : table) (s : store) (m : movie).

Lemma add_record_size m t ok msg s' :
  add_record m (Some t) = ((ok, msg), s') →
  ∃ t', s' = Some t'
        ∧ size (rows t') = (if ok then S (size (rows t)) else size (rows t)).
Proof.
  unfold add_record, add_movie.
  destruct (py_not (movie_id m) || py_not (movie_name m)).
  { intros [= <- _ <-]. eauto. }
  unfold sql_insert. cbn [movie_id].
  destruct (movie_id_taken (movie_id m) None t).
  { intros [= <- _ <-]. eauto. }
  intros [= <- _ <-]. eexists. split; [done|]. cbn [rows].
  apply map_size_insert_None, next_rowid_fresh.
Qed.

Lemma add_all_size ms t n s' :
  add_all ms (Some t) = (n, s') →
  ∃ t', s' = Some t' ∧ size (rows t') = size (rows t) + n.
Proof.
  revert t n s'. induction ms as [|m ms IH]; intros t n s'; simpl.
  - intros [= <- <-]. exists t. split; [done|lia].
  - destruct (add_record m (Some t)) as [[ok msg] s1] eqn:Hadd.
    apply add_record_size in Hadd as (t1 & -> & Hsize).
    destruct (add_all ms (Some t1)) as [k s2] eqn:Hrest.
    apply IH in Hrest as (t2 & -> & Hsize2). intros [= <- <-].
    exists t2. split; [done|]. destruct ok; lia.
Qed.
End listing.

(** C7.  [view_all_movies] returns every stored record, each once, in
    strictly descending order of [id]; after a run of calls to [add_movie]
    on a new database, with no deletion, it returns as many records as
    calls succeeded; on an empty table, and on a file without the table,
    it returns the empty list. *)
Theorem view_all_movies_listing (t : table) (ms : list movie) :
  (∃ listed,
      view_all_movies (Some t) = (listed, Some t)
      ∧ (∀ i m, (i, m) ∈ listed ↔ rows t !! i = Some m)
      ∧ NoDup listed
      ∧ StronglySorted (λ r1 r2 : row, (r2.1 < r1.1)%Z) listed)
  ∧ length (view_all_movies (add_all ms (initialize_database None)).2).1
    = (add_all ms (initialize_database None)).1
  ∧ view_all_movies (Some empty_table) = ([], Some empty_table)
  ∧ view_all_movies None = ([], None).
Proof.
  split_and!; [| |done..].
  - exists (scan_desc t). split_and!; [done| |apply NoDup_scan_desc|apply scan_desc_sorted].
    intros i m. apply elem_of_scan_desc.
  - destruct (add_all ms (initialize_database None)) as [n s'] eqn:Hrun.
    apply add_all_size in Hrun as (t' & -> & Hsize).
    change (rows empty_table) with (∅ : gmap Z movie) in Hsize.
    rewrite map_size_empty in Hsize. simpl.
    by rewrite length_scan_desc, Hsize.
Qed.

(** C8.  [initialize_database] creates the table when the file has none,
    leaves a file that has it as it is, and so gives the same store when
    run twice as when run once. *)
Theorem initialize_database_idempotent (s : store) :
  initialize_database (initialize_database s) = initialize_database s
  ∧ initialize_database None = Some empty_table
  ∧ (∀ t, initialize_database (Some t) = Some t)
  ∧ is_Some (initialize_database s).
Proof. destruct s; split_and!; try done; by eexists. Qed.

(** C10.  [view_all_movies], [search_movies], [get_movie_by_id] and
    [get_statistics] hand back the store they were given, for every store
    and every argument. *)
Theorem reads_leave_store {F : Type} `{FloatOps F} (s : store)
    (kwargs : list (string * string)) (record_id : Z) :
  (view_all_movies s).2 = s
  ∧ (search_movies kwargs s).2 = s
  ∧ (get_movie_by_id record_id s).2 = s
  ∧ (get_statistics s).2 = s.
Proof.
  assert ((view_all_movies s).2 = s) as Hview by by destruct s.
  split_and!; [done| |by destruct s..].
  unfold search_movies. destruct (conditions kwargs) as [|c conds].
  - by destruct (view_all_movies s).
  - unfold sql_select_where.
    by destruct (compile_where (c :: conds)), s.
Qed.

(** ** Statistics *)

Section number_prefix.
Implicit Types (s txt : string) (m d e : Z).

Lemma no_digit_cons c s :
  no_digit (String c s) = true → is_digit c = false ∧ no_digit s = true.
Proof.
  unfold no_digit. simpl. intros [Hc Hs]%andb_true_iff.
  by apply negb_true_iff in Hc.
Qed.

Lemma no_digit_skip_spaces s : no_digit s = true → no_digit (skip_spaces s) = true.
Proof.
  induction s as [|c s IH]; [done|]. intros Hs. simpl.
  destruct (is_space c); [|done]. by apply IH, (no_digit_cons c).
Qed.

Lemma no_digit_read_sign s : no_digit s = true → no_digit (read_sign s).2 = true.
Proof.
  destruct s as [|c s]; [done|]. intros Hs. simpl.
  pose proof (no_digit_cons c s Hs) as [_ Hs'].
  by destruct (Ascii.eqb c "-"), (Ascii.eqb c "+").
Qed.

Lemma read_digits_no_digit m d s : no_digit s = true → read_digits m d s = (m, d, s).
Proof.
  destruct s as [|c s]; [done|]. intros [Hc _]%no_digit_cons. simpl. by rewrite Hc.
Qed.

Lemma read_exponent_no_digit e s : no_digit s = true → read_exponent e s = e.
Proof.
  destruct s as [|c s]; [done|]. intros [Hc _]%no_digit_cons. simpl. by rewrite Hc.
Qed.

Lemma read_exponent_part_no_digit s : no_digit s = true → read_exponent_part s = 0%Z.
Proof.
  destruct s as [|c s]; [done|]. intros [_ Hs]%no_digit_cons. simpl.
  destruct (Ascii.eqb (to_lower c) "e"); [|done].
  pose proof (no_digit_read_sign s Hs) as Hsign.
  destruct (read_sign s) as [eneg s'']. simpl in Hsign.
  rewrite read_exponent_no_digit by done. by destruct eneg.
Qed.

(** A text without digit reads as zero, with either sign. *)
Lemma parse_real_no_digit txt :
  no_digit txt = true → ∃ neg, parse_real txt = (neg, 0%Z, 0%Z).
Proof.
  intros Htxt%no_digit_skip_spaces%no_digit_read_sign. unfold parse_real.
  destruct (read_sign (skip_spaces txt)) as [neg s1]. simpl in Htxt.
  exists neg. rewrite read_digits_no_digit by done.
  destruct s1 as [|c s1]; [done|]. simpl.
  destruct (Ascii.eqb c "."); [|by rewrite read_exponent_part_no_digit].
  apply no_digit_cons in Htxt as [_ Hs1].
  rewrite read_digits_no_digit by done. by rewrite read_exponent_part_no_digit.
Qed.
End number_prefix.

Section average.
Context {F : Type} `{FloatOps F}.
Implicit Types (xs : list F) (t : table).

Lemma foldl_avg_step xs (a : F) (n : Z) :
  foldl avg_step (a, n) xs = (foldl f_add a xs, (n + Z.of_nat (length xs))%Z).
Proof.
  revert a n. induction xs as [|x xs IH]; intros a n; cbn [foldl length].
  - f_equal. lia.
  - change (avg_step (a, n) x) with (f_add a x, (n + 1)%Z).
    rewrite IH. f_equal. lia.
Qed.

Lemma sql_avg_mean xs :
  sql_avg xs = match xs with [] => None | _ :: _ => Some (mean xs) end.
Proof.
  unfold sql_avg. rewrite foldl_avg_step. destruct xs as [|x xs]; [done|].
  destruct (_ =? 0)%Z eqn:E; [|done]. apply Z.eqb_eq in E. simpl in E. lia.
Qed.

Lemma rated_values (l : list row) :
  map (λ r : row, cast_real (rating r.2))
      (List.filter (λ r : row, negb (String.eqb (rating r.2) EmptyString)) l)
  = map cast_real (nonempty (map (λ r : row, rating r.2) l)).
Proof.
  unfold nonempty, py_not. induction l as [|r l IH]; simpl; [done|].
  destruct (negb (String.eqb (rating r.2) EmptyString)); simpl; by rewrite IH.
Qed.
End average.

(** C1, as amended.  [get_statistics] reports as [total_movies] the number
    of stored records, and as [average_rating] the mean of
    CAST(rating AS REAL) over the records whose rating is not the empty
    string, rounded to two places; the integer [0] when no rating is
    non-empty or the mean is zero.  The cast reads the number a rating
    starts with, and reads a rating without any digit as zero: such a
    rating is counted in the mean.  Over the ratings 4, empty, 2 and abc
    the count is 4 and the average is the rounded mean of 4, 2 and 0. *)
Theorem get_statistics_average {F : Type} `{FloatOps F} (t : table) :
  let values := map cast_real (nonempty (ratings t)) in
  get_statistics (Some t)
  = (Statistics (Z.of_nat (length (view_all_movies (Some t)).1))
                (reported match values with
                          | [] => None
                          | _ :: _ => Some (mean values)
                          end),
     Some t)
  ∧ (∀ txt, no_digit txt = true → ∃ neg, cast_real txt = f_of_decimal neg 0 0)
  ∧ map (λ r : row, rating r.2) (view_all_movies four_ratings).1
    = ["abc"; "2"; EmptyString; "4"]
  ∧ (get_statistics four_ratings).1
    = Statistics 4 (reported (Some (mean [f_of_decimal false 4 0;
                                          f_of_decimal false 2 0;
                                          f_of_decimal false 0 0]))).
Proof.
  split_and!.
  - unfold get_statistics, sql_count, sql_avg_rating.
    rewrite rated_values, sql_avg_mean. fold (ratings t).
    cbn [view_all_movies sql_select_all fst]. by rewrite length_scan_desc.
  - intros txt [neg Hparse]%parse_real_no_digit. exists neg.
    unfold cast_real. by rewrite Hparse.
  - vm_compute; reflexivity.
  - vm_compute; reflexivity.
Qed.

(** C1 as stated fails on the rating abc: it is not left out of the
    average but counted as zero, so that the ratings 4, empty, 2 and abc
    average to 2 and not to 3. *)
Lemma four_ratings_counterexample :
  map (λ r : row, rating r.2) (view_all_movies four_ratings).1
  = ["abc"; "2"; EmptyString; "4"]
  ∧ get_statistics four_ratings = (Statistics 4 (PyFloat 2%Q), four_ratings)
  ∧ average_rating (get_statistics four_ratings).1 ≠ PyFloat 3%Q.
Proof. split_and!; [vm_compute; reflexivity..|]. vm_compute. discriminate. Qed.

(** * Further properties of the methods *)

(** ** Listings after a write *)

Section listings_after_writes.
Implicit Types (t : table) (r : row) (i rid : Z) (m : movie) (l : list row).

Lemma strictly_sorted_NoDup l :
  StronglySorted (λ r1 r2 : row, (r2.1 < r1.1)%Z) l → NoDup l.
Proof.
  induction 1 as [|r l _ IH Hall]; constructor; [|done].
  intros Hin. rewrite Forall_forall in Hall. specialize (Hall r Hin). lia.
Qed.

(** A strictly descending list of rows is determined by its elements. *)
Lemma listing_unique l t :
  StronglySorted (λ r1 r2 : row, (r2.1 < r1.1)%Z) l →
  (∀ i m, (i, m) ∈ l ↔ rows t !! i = Some m) →
  l = scan_desc t.
Proof.
  intros Hsorted Helem.
  apply (StronglySorted_unique_strong (λ r1 r2 : row, (r2.1 < r1.1)%Z));
    [|done|apply scan_desc_sorted|].
  { intros r1 r2 _ _ H1 H2. lia. }
  apply NoDup_Permutation; [by apply strictly_sorted_NoDup|apply NoDup_scan_desc|].
  intros [i m]. by rewrite Helem, elem_of_scan_desc.
Qed.

Lemma strictly_sorted_filter (P : row → Prop) `{!∀ r, Decision (P r)} l :
  StronglySorted (λ r1 r2 : row, (r2.1 < r1.1)%Z) l →
  StronglySorted (λ r1 r2 : row, (r2.1 < r1.1)%Z) (filter P l).
Proof.
  induction 1 as [|r l _ IH Hall]; [constructor|].
  rewrite filter_cons. case_decide; [|done]. constructor; [done|].
  rewrite Forall_forall in Hall |- *. intros r' [_ Hr']%list_elem_of_filter. auto.
Qed.

Lemma strictly_sorted_replace rid m l :
  StronglySorted (λ r1 r2 : row, (r2.1 < r1.1)%Z) l →
  StronglySorted (λ r1 r2 : row, (r2.1 < r1.1)%Z) (replace_row rid m <$> l).
Proof.
  assert (∀ r, (replace_row rid m r).1 = r.1) as Hfst.
  { intros r. unfold replace_row. by case_bool_decide. }
  induction 1 as [|r l _ IH Hall]; [constructor|].
  rewrite fmap_cons. constructor; [done|].
  rewrite Forall_fmap. eapply Forall_impl; [done|].
  intros r' Hr'. simpl. by rewrite !Hfst.
Qed.

Lemma scan_desc_insert_fresh t i m sq :
  (∀ j m', rows t !! j = Some m' → (j < i)%Z) →
  scan_desc (Table (<[i := m]> (rows t)) sq) = (i, m) :: scan_desc t.
Proof.
  intros Habove. symmetry. apply listing_unique; cbn [rows].
  - constructor; [apply scan_desc_sorted|].
    apply Forall_forall. intros [j m'] Hin%elem_of_scan_desc. simpl. eauto.
  - intros j m'. rewrite elem_of_cons, elem_of_scan_desc, lookup_insert.
    case_decide; subst.
    + split; [intros [[= ->]|Hj]; [done|]|intros [= ->]; by left].
      apply Habove in Hj. lia.
    + split; [intros [[= ? ?]|Hj]; [done|done]|by right].
Qed.

Lemma scan_desc_delete t rid sq :
  scan_desc (Table (delete rid (rows t)) sq)
  = filter (λ r : row, r.1 ≠ rid) (scan_desc t).
Proof.
  symmetry. apply listing_unique; cbn [rows].
  - apply strictly_sorted_filter, scan_desc_sorted.
  - intros j m'. rewrite list_elem_of_filter, elem_of_scan_desc, lookup_delete_Some.
    simpl. split; intros [Hne Hj]; (split; [congruence|done]).
Qed.

Lemma scan_desc_update t rid m m0 sq :
  rows t !! rid = Some m0 →
  scan_desc (Table (<[rid := m]> (rows t)) sq)
  = replace_row rid m <$> scan_desc t.
Proof.
  intros Hrid. symmetry. apply listing_unique; cbn [rows].
  - apply strictly_sorted_replace, scan_desc_sorted.
  - intros j m'. rewrite list_elem_of_fmap, lookup_insert. split.
    + intros ([j' m''] & Heq & Hin%elem_of_scan_desc).
      unfold replace_row in Heq. simpl in Heq. case_bool_decide; simplify_eq.
      * by rewrite decide_True.
      * by rewrite decide_False.
    + case_decide; subst.
      * intros [= <-]. exists (j, m0). split; [|by apply elem_of_scan_desc].
        unfold replace_row. simpl. by rewrite bool_decide_eq_true_2.
      * intros Hj. exists (j, m'). split; [|by apply elem_of_scan_desc].
        unfold replace_row. simpl. rewrite bool_decide_eq_false_2; [done|congruence].
Qed.
End listings_after_writes.

(** ** What a write does to the table *)

Section write_outcomes.
Implicit Types (t : table) (s : store) (m : movie) (i rid : Z).

Lemma py_not_true (x : string) : py_not x = true ↔ x = EmptyString.
Proof. unfold py_not. apply String.eqb_eq. Qed.

Lemma py_not_false_iff (x : string) : py_not x = false ↔ x ≠ EmptyString.
Proof. unfold py_not. apply String.eqb_neq. Qed.

Lemma record_eta m :
  Movie (movie_id m) (movie_name m) (release_date m) (director m) (cast m)
        (budget m) (duration m) (rating m) = m.
Proof. by destruct m. Qed.

(** The three ways [add_movie] ends on a file that has the table. *)
Lemma add_record_outcome m t :
  (movie_id m = EmptyString ∨ movie_name m = EmptyString) ∧
    add_record m (Some t) = ((false, required_msg), Some t)
  ∨ (movie_id m ≠ EmptyString ∧ movie_name m ≠ EmptyString
     ∧ (∃ i m', rows t !! i = Some m' ∧ movie_id m' = movie_id m)
     ∧ add_record m (Some t) = ((false, exists_msg (movie_id m)), Some t))
  ∨ (movie_id m ≠ EmptyString ∧ movie_name m ≠ EmptyString
     ∧ (∀ i m', rows t !! i = Some m' → movie_id m' ≠ movie_id m)
     ∧ add_record m (Some t)
       = ((true, "Movie added successfully!"),
          Some (Table (<[next_rowid t := m]> (rows t)) (next_rowid t)))).
Proof.
  unfold add_record, add_movie. rewrite record_eta.
  destruct (py_not (movie_id m)) eqn:Hid.
  { left. apply py_not_true in Hid. auto. }
  destruct (py_not (movie_name m)) eqn:Hname.
  { left. apply py_not_true in Hname. auto. }
  apply py_not_false_iff in Hid, Hname. right. cbn [orb].
  unfold sql_insert. destruct (movie_id_taken (movie_id m) None t) eqn:E.
  - left. apply movie_id_taken_true in E as (i & m' & Hi & Hm & _). eauto 10.
  - right. split_and!; [done..| |done].
    rewrite movie_id_taken_false in E. intros i m' Hi Hm.
    by specialize (E i m' Hi Hm).
Qed.

(** The four ways [update_movie] ends on a file that has the table. *)
Lemma update_record_outcome rid m t :
  (movie_id m = EmptyString ∨ movie_name m = EmptyString) ∧
    update_record rid m (Some t) = ((false, required_msg), Some t)
  ∨ (movie_id m ≠ EmptyString ∧ movie_name m ≠ EmptyString
     ∧ rows t !! rid = None
     ∧ update_record rid m (Some t)
       = ((false, "No record found to update!"), Some t))
  ∨ (movie_id m ≠ EmptyString ∧ movie_name m ≠ EmptyString
     ∧ is_Some (rows t !! rid)
     ∧ (∃ i m', i ≠ rid ∧ rows t !! i = Some m' ∧ movie_id m' = movie_id m)
     ∧ update_record rid m (Some t) = ((false, exists_msg (movie_id m)), Some t))
  ∨ (movie_id m ≠ EmptyString ∧ movie_name m ≠ EmptyString
     ∧ is_Some (rows t !! rid)
     ∧ (∀ i m', rows t !! i = Some m' → movie_id m' = movie_id m → i = rid)
     ∧ update_record rid m (Some t)
       = ((true, "Movie updated successfully!"),
          Some (Table (<[rid := m]> (rows t)) (seq t)))).
Proof.
  unfold update_record, update_movie. rewrite record_eta.
  destruct (py_not (movie_id m)) eqn:Hid.
  { left. apply py_not_true in Hid. auto. }
  destruct (py_not (movie_name m)) eqn:Hname.
  { left. apply py_not_true in Hname. auto. }
  apply py_not_false_iff in Hid, Hname. right. cbn [orb].
  unfold sql_update. destruct (rows t !! rid) as [m0|] eqn:Hrid.
  2: { left. by rewrite Z.eqb_refl. }
  right. destruct (movie_id_taken (movie_id m) (Some rid) t) eqn:E.
  - left. apply movie_id_taken_true in E as (i & m' & Hi & Hm & Hne).
    split_and!; [done..|by eexists| |done].
    exists i, m'. split_and!; [congruence|done..].
  - right. split_and!; [done..|by eexists| |done].
    rewrite movie_id_taken_false in E. intros i m' Hi Hm.
    specialize (E i m' Hi Hm). congruence.
Qed.

Lemma delete_movie_outcome rid t :
  rows t !! rid = None ∧
    delete_movie rid (Some t) = ((false, "No record found to delete!"), Some t)
  ∨ is_Some (rows t !! rid) ∧
    delete_movie rid (Some t)
    = ((true, "Movie deleted successfully!"),
       Some (Table (delete rid (rows t)) (seq t))).
Proof.
  unfold delete_movie, sql_delete. destruct (rows t !! rid) eqn:E.
  - right. split; [by eexists|done].
  - by left.
Qed.

(** On a file without the table every write fails and changes nothing. *)
Lemma serve_no_table q : (serve q None).1.1 = false ∧ (serve q None).2 = None.
Proof.
  destruct q as [m|rid m|rid]; simpl; [| |done].
  - unfold add_record, add_movie.
    by destruct (py_not (movie_id m) || py_not (movie_name m)).
  - unfold update_record, update_movie.
    by destruct (py_not (movie_id m) || py_not (movie_name m)).
Qed.
End write_outcomes.

(** X1.  A write that reports failure has changed nothing: whenever
    [add_movie], [update_movie] or [delete_movie] returns [False], the
    store is the one it was called on. *)
Theorem failed_write_keeps_store (q : request) (s : store) :
  (serve q s).1.1 = false → (serve q s).2 = s.
Proof.
  destruct s as [t|]; [|intros _; apply serve_no_table].
  destruct q as [m|rid m|rid]; simpl.
  - destruct (add_record_outcome m t) as [[_ ->]|[(_ & _ & _ & ->)|(_ & _ & _ & ->)]];
      [done..|discriminate].
  - destruct (update_record_outcome rid m t)
      as [[_ ->]|[(_ & _ & _ & ->)|[(_ & _ & _ & _ & ->)|(_ & _ & _ & _ & ->)]]];
      [done..|discriminate].
  - destruct (delete_movie_outcome rid t) as [[_ ->]|[_ ->]]; [done|discriminate].
Qed.

Lemma failed_write_keeps_store_witness :
  (serve (Update 2 (titled "M1" "Aliens" "5")) two_movies).2 = two_movies.
Proof. apply failed_write_keeps_store. vm_compute. reflexivity. Defined.

(** X2.  On a file that has the table, [add_movie] succeeds exactly when
    both required fields are non-empty and no stored record holds the
    [movie_id]; [update_movie] exactly when both are non-empty, the record
    exists and no other record holds the [movie_id]; [delete_movie] exactly
    when the record exists.  On a file without the table none succeeds. *)
Theorem write_succeeds_iff (q : request) (t : table) :
  ((serve q (Some t)).1.1 = true ↔
   match q with
   | Add m =>
       movie_id m ≠ EmptyString ∧ movie_name m ≠ EmptyString
       ∧ ∀ i m', rows t !! i = Some m' → movie_id m' ≠ movie_id m
   | Update record_id m =>
       movie_id m ≠ EmptyString ∧ movie_name m ≠ EmptyString
       ∧ is_Some (rows t !! record_id)
       ∧ ∀ i m', rows t !! i = Some m' → movie_id m' = movie_id m → i = record_id
   | Delete record_id => is_Some (rows t !! record_id)
   end)
  ∧ (serve q None).1.1 = false.
Proof.
  split; [|apply serve_no_table].
  destruct q as [m|rid m|rid]; simpl.
  - destruct (add_record_outcome m t)
      as [[Hempty ->]|[(Hid & Hname & (i & m' & Hi & Hm) & ->)|(Hid & Hname & Hfresh & ->)]];
      simpl; split; try done.
    + intros (? & ? & _). by destruct Hempty.
    + intros (_ & _ & Hfresh). by destruct (Hfresh i m' Hi).
  - destruct (update_record_outcome rid m t)
      as [[Hempty ->]|[(_ & _ & Hnone & ->)|[(_ & _ & _ & (i & m' & Hne & Hi & Hm) & ->)
         |(Hid & Hname & Hsome & Hown & ->)]]]; simpl; split; try done.
    + intros (? & ? & _). by destruct Hempty.
    + intros (_ & _ & [? Hsome] & _). congruence.
    + intros (_ & _ & _ & Hown). by destruct Hne; eapply Hown.
  - destruct (delete_movie_outcome rid t) as [[Hnone ->]|[Hsome ->]]; simpl; split; try done.
    intros [? Hsome]. congruence.
Qed.

(** X3.  A successful [add_movie] puts the new record at the head of the
    listing, under an id larger than every listed one, and leaves the rest
    of the listing as it was. *)
Theorem add_movie_listing (mid name rel dir cst bud dur rat : string) (t : table) :
  mid ≠ EmptyString → name ≠ EmptyString →
  (∀ i m, rows t !! i = Some m → movie_id m ≠ mid) →
  ∃ new_id : Z,
    (view_all_movies (add_movie mid name rel dir cst bud dur rat (Some t)).2).1
    = (new_id, Movie mid name rel dir cst bud dur rat)
        :: (view_all_movies (Some t)).1
    ∧ Forall (λ r : row, (r.1 < new_id)%Z) (view_all_movies (Some t)).1.
Proof.
  intros Hmid%py_not_false Hname%py_not_false Hfresh.
  exists (next_rowid t). unfold add_movie. rewrite Hmid, Hname. cbn [orb].
  rewrite sql_insert_fresh by done. simpl. split.
  - apply scan_desc_insert_fresh. apply next_rowid_above.
  - apply Forall_forall. intros [i m] Hin%elem_of_scan_desc.
    by eapply next_rowid_above.
Qed.

Lemma add_movie_listing_witness :
  ∃ new_id : Z,
    (view_all_movies (add_movie "M3" "Blade Runner" "1982" EmptyString
                                EmptyString EmptyString EmptyString "5"
                                two_movies).2).1
    = (new_id, Movie "M3" "Blade Runner" "1982" EmptyString EmptyString
                     EmptyString EmptyString "5")
        :: [(2%Z, heat); (1%Z, alien)].
Proof.
  destruct (add_movie_listing "M3" "Blade Runner" "1982" EmptyString
              EmptyString EmptyString EmptyString "5"
              (Table (<[ 2%Z := heat ]> {[ 1%Z := alien ]}) 2))
    as (new_id & Hlist & _).
  - discriminate.
  - discriminate.
  - intros i m. simpl. rewrite lookup_insert, lookup_singleton.
    repeat case_decide; intros [= <-]; discriminate.
  - exists new_id. exact Hlist.
Defined.

(** X4.  [delete_movie] on the id of a stored record succeeds; afterwards
    [get_movie_by_id] finds nothing under that id, the listing is the old
    one without that record, and a second [delete_movie] on the id fails
    with the message that no record was found. *)
Theorem delete_movie_removes (record_id : Z) (t : table) :
  is_Some (rows t !! record_id) →
  ∃ s' : store,
    delete_movie record_id (Some t) = ((true, "Movie deleted successfully!"), s')
    ∧ get_movie_by_id record_id s' = (None, s')
    ∧ (view_all_movies s').1
      = filter (λ r : row, r.1 ≠ record_id) (view_all_movies (Some t)).1
    ∧ delete_movie record_id s' = ((false, "No record found to delete!"), s').
Proof.
  intros Hsome.
  destruct (delete_movie_outcome record_id t) as [[Hnone _]|[_ Hdel]].
  { destruct Hsome. congruence. }
  eexists. split_and!; [exact Hdel|..].
  - unfold get_movie_by_id, sql_select_by_id. cbn [rows].
    by rewrite lookup_delete_eq.
  - simpl. apply scan_desc_delete.
  - unfold delete_movie, sql_delete. cbn [rows]. by rewrite lookup_delete_eq.
Qed.

Lemma delete_movie_removes_witness :
  ∃ s' : store,
    delete_movie 1 two_movies = ((true, "Movie deleted successfully!"), s')
    ∧ (view_all_movies s').1 = [(2%Z, heat)].
Proof.
  destruct (delete_movie_removes 1 (Table (<[ 2%Z := heat ]> {[ 1%Z := alien ]}) 2))
    as (s' & Hdel & _ & Hlist & _).
  - exists alien. reflexivity.
  - exists s'. split; [exact Hdel|]. rewrite Hlist. vm_compute. reflexivity.
Defined.

(** X5.  [update_movie] on the id of a stored record, with both required
    fields non-empty and a [movie_id] that no other record holds, succeeds;
    afterwards [get_movie_by_id] returns the new fields under the same id,
    and the listing is the old one with that record replaced in place. *)
Theorem update_movie_overwrites (record_id : Z)
    (mid name rel dir cst bud dur rat : string) (t : table) :
  mid ≠ EmptyString → name ≠ EmptyString →
  is_Some (rows t !! record_id) →
  (∀ i m, rows t !! i = Some m → movie_id m = mid → i = record_id) →
  ∃ s' : store,
    update_movie record_id mid name rel dir cst bud dur rat (Some t)
    = ((true, "Movie updated successfully!"), s')
    ∧ get_movie_by_id record_id s'
      = (Some (record_id, Movie mid name rel dir cst bud dur rat), s')
    ∧ (view_all_movies s').1
      = replace_row record_id (Movie mid name rel dir cst bud dur rat)
          <$> (view_all_movies (Some t)).1.
Proof.
  intros Hmid Hname [m0 Hrid] Hown.
  destruct (update_record_outcome record_id (Movie mid name rel dir cst bud dur rat) t)
    as [[Hempty _]|[(_ & _ & Hnone & _)|[(_ & _ & _ & (i & m' & Hne & Hi & Hm) & _)
       |(_ & _ & _ & _ & Hupd)]]].
  - by destruct Hempty.
  - congruence.
  - destruct Hne. by eapply Hown.
  - eexists. split_and!; [exact Hupd|..].
    + unfold get_movie_by_id, sql_select_by_id. cbn [rows].
      by rewrite lookup_insert_eq.
    + simpl. by eapply scan_desc_update.
Qed.

Lemma update_movie_overwrites_witness :
  ∃ s' : store,
    update_movie 1 "M9" "Aliens" "1986" EmptyString EmptyString EmptyString
                 EmptyString "4" two_movies
    = ((true, "Movie updated successfully!"), s')
    ∧ (view_all_movies s').1
      = [(2%Z, heat);
         (1%Z, Movie "M9" "Aliens" "1986" EmptyString EmptyString EmptyString
                     EmptyString "4")].
Proof.
  destruct (update_movie_overwrites 1 "M9" "Aliens" "1986" EmptyString
              EmptyString EmptyString EmptyString "4"
              (Table (<[ 2%Z := heat ]> {[ 1%Z := alien ]}) 2))
    as (s' & Hupd & _ & Hlist).
  - discriminate.
  - discriminate.
  - exists alien. reflexivity.
  - intros i m. simpl. rewrite lookup_insert, lookup_singleton.
    repeat case_decide; intros [= <-]; try discriminate; congruence.
  - exists s'. split; [exact Hupd|]. rewrite Hlist. vm_compute. reflexivity.
Defined.

(** X6.  [update_movie] never creates or removes a record, and never
    changes an id: whatever its arguments and its outcome, the ids of the
    listing are the same, in the same order, before and after. *)
Theorem update_movie_keeps_ids (record_id : Z)
    (mid name rel dir cst bud dur rat : string) (s : store) :
  (view_all_movies
     (update_movie record_id mid name rel dir cst bud dur rat s).2).1.*1
  = (view_all_movies s).1.*1.
Proof.
  destruct s as [t|].
  2: { unfold update_movie. by destruct (py_not mid || py_not name). }
  destruct (update_record_outcome record_id (Movie mid name rel dir cst bud dur rat) t)
    as [[_ Hupd]|[(_ & _ & _ & Hupd)|[(_ & _ & _ & _ & Hupd)
       |(_ & _ & [m0 Hrid] & _ & Hupd)]]];
    unfold update_record in Hupd; cbn [movie_id movie_name release_date director
      cast budget duration rating] in Hupd; rewrite Hupd; [done..|].
  simpl. erewrite scan_desc_update by done.
  rewrite <- list_fmap_compose. apply list_fmap_ext.
  intros _ r _. simpl. unfold replace_row. by case_bool_decide.
Qed.

(** X7.  [get_movie_by_id] and [view_all_movies] agree: a row is returned
    for an id exactly when the listing holds that row under that id. *)
Theorem get_movie_by_id_listed (record_id : Z) (r : row) (s : store) :
  (get_movie_by_id record_id s).1 = Some r
  ↔ r ∈ (view_all_movies s).1 ∧ r.1 = record_id.
Proof.
  destruct s as [t|]; simpl.
  2: { split; [done|]. by intros [?%elem_of_nil _]. }
  destruct r as [i m]. rewrite elem_of_scan_desc. simpl.
  destruct (rows t !! record_id) as [m0|] eqn:E; simpl.
  - split; [by intros [= <- <-]|]. intros [Hi <-]. by simplify_eq.
  - split; [done|]. intros [Hi <-]. by simplify_eq.
Qed.

(** X8.  Adding twice under one [movie_id]: whatever the first
    [add_movie] did, a second one with the same non-empty [movie_id] fails
    with the message that the id exists and changes nothing. *)
Theorem add_movie_twice (mid name rel dir cst bud dur rat : string)
    (name' rel' dir' cst' bud' dur' rat' : string) (t : table) :
  mid ≠ EmptyString → name ≠ EmptyString → name' ≠ EmptyString →
  let s1 := (add_movie mid name rel dir cst bud dur rat (Some t)).2 in
  add_movie mid name' rel' dir' cst' bud' dur' rat' s1
  = ((false, exists_msg mid), s1).
Proof.
  intros Hmid Hname Hname' s1.
  assert (∃ t1 i m, s1 = Some t1 ∧ rows t1 !! i = Some m ∧ movie_id m = mid)
    as (t1 & i & m & -> & Hi & Hm).
  { subst s1.
    destruct (add_record_outcome (Movie mid name rel dir cst bud dur rat) t)
      as [[Hempty _]|[(_ & _ & (i & m & Hi & Hm) & Hadd)|(_ & _ & _ & Hadd)]];
      [by destruct Hempty|..]; unfold add_record in Hadd;
      cbn [movie_id movie_name release_date director cast budget duration rating]
        in Hadd; rewrite Hadd; simpl.
    - by exists t, i, m.
    - eexists _, (next_rowid t), _. split; [done|]. cbn [rows].
      by rewrite lookup_insert_eq. }
  unfold add_movie. rewrite (py_not_false mid), (py_not_false name') by done.
  cbn [orb].
  by rewrite (sql_insert_taken (Movie mid name' rel' dir' cst' bud' dur' rat')
                t1 i m Hi Hm).
Qed.

Lemma add_movie_twice_witness :
  let s1 := (add_movie "M3" "Blade Runner" "1982" EmptyString EmptyString
                       EmptyString EmptyString "5" two_movies).2 in
  add_movie "M3" "Blade Runner 2049" "2017" EmptyString EmptyString
            EmptyString EmptyString "4" s1
  = ((false, exists_msg "M3"), s1).
Proof.
  apply (add_movie_twice "M3" "Blade Runner" "1982" EmptyString EmptyString
           EmptyString EmptyString "5" "Blade Runner 2049" "2017" EmptyString
           EmptyString EmptyString EmptyString "4"
           (Table (<[ 2%Z := heat ]> {[ 1%Z := alien ]}) 2)); discriminate.
Defined.

(** ** Tables built by the methods *)

Section built_tables.
Implicit Types (t : table) (s : store) (m : movie) (i rid : Z).

Lemma max_rowid_nonneg t : (0 ≤ max_rowid t)%Z.
Proof.
  unfold max_rowid. induction (map_to_list (rows t)) as [|r l IH]; simpl; lia.
Qed.

Lemma max_rowid_le t (b : Z) :
  (0 ≤ b)%Z → (∀ i m, rows t !! i = Some m → (i ≤ b)%Z) → (max_rowid t ≤ b)%Z.
Proof.
  intros Hb Hall. unfold max_rowid.
  assert (Forall (λ r : row, (r.1 ≤ b)%Z) (map_to_list (rows t))) as Hl.
  { apply Forall_forall. intros [i m] Hin%elem_of_map_to_list. simpl. eauto. }
  induction Hl as [|r l Hr _ IH]; simpl; lia.
Qed.

Lemma well_formed_seq_nonneg t : well_formed t → (max_rowid t ≤ Z.max 0 (seq t))%Z.
Proof.
  intros Hwf. apply max_rowid_le; [lia|].
  intros i m Hi. apply (wf_seq t Hwf) in Hi. lia.
Qed.

Lemma well_formed_empty : well_formed empty_table.
Proof. split; intros i; intros; simplify_map_eq. Qed.

Lemma well_formed_insert_new t m :
  well_formed t →
  movie_id m ≠ EmptyString → movie_name m ≠ EmptyString →
  (∀ i m', rows t !! i = Some m' → movie_id m' ≠ movie_id m) →
  well_formed (Table (<[next_rowid t := m]> (rows t)) (next_rowid t)).
Proof.
  intros [Huniq Hreq Hseq] Hid Hname Hfresh.
  pose proof (max_rowid_nonneg t) as Hmax.
  split; cbn [rows seq].
  - intros i j m1 m2. cbn [rows]. rewrite !lookup_insert.
    repeat case_decide; subst; intros; simplify_eq; try done.
    + by destruct (Hfresh j m2).
    + by destruct (Hfresh i m1).
    + by eapply Huniq.
  - intros i m'. rewrite lookup_insert. case_decide; intros; simplify_eq; eauto.
  - intros i m'. rewrite lookup_insert. unfold next_rowid.
    case_decide; intros Hi; simplify_eq; [lia|]. apply Hseq in Hi. lia.
Qed.

Lemma well_formed_overwrite t rid m :
  well_formed t →
  movie_id m ≠ EmptyString → movie_name m ≠ EmptyString →
  is_Some (rows t !! rid) →
  (∀ i m', rows t !! i = Some m' → movie_id m' = movie_id m → i = rid) →
  well_formed (Table (<[rid := m]> (rows t)) (seq t)).
Proof.
  intros [Huniq Hreq Hseq] Hid Hname [m0 Hrid] Hown.
  split; cbn [rows seq].
  - intros i j m1 m2. cbn [rows]. rewrite !lookup_insert.
    repeat case_decide; subst; intros; simplify_eq; try done.
    + symmetry. by eapply Hown.
    + by eapply Hown.
    + by eapply Huniq.
  - intros i m'. rewrite lookup_insert. case_decide; intros; simplify_eq; eauto.
  - intros i m'. rewrite lookup_insert. case_decide; intros; simplify_eq; eauto.
Qed.

Lemma well_formed_delete t rid :
  well_formed t → well_formed (Table (delete rid (rows t)) (seq t)).
Proof.
  intros [Huniq Hreq Hseq]. split; cbn [rows seq].
  - intros i j m1 m2. cbn [rows].
    intros [_ Hi]%lookup_delete_Some [_ Hj]%lookup_delete_Some.
    by eapply Huniq.
  - intros i m' [_ Hi]%lookup_delete_Some. eauto.
  - intros i m' [_ Hi]%lookup_delete_Some. eauto.
Qed.

Lemma serve_well_formed q t :
  well_formed t → ∃ t', (serve q (Some t)).2 = Some t' ∧ well_formed t'.
Proof.
  intros Hwf. destruct q as [m|rid m|rid]; simpl.
  - destruct (add_record_outcome m t)
      as [[_ ->]|[(_ & _ & _ & ->)|(Hid & Hname & Hfresh & ->)]]; simpl; eauto.
    eexists. split; [done|]. by apply well_formed_insert_new.
  - destruct (update_record_outcome rid m t)
      as [[_ ->]|[(_ & _ & _ & ->)|[(_ & _ & _ & _ & ->)
         |(Hid & Hname & Hsome & Hown & ->)]]]; simpl; eauto.
    eexists. split; [done|]. by apply well_formed_overwrite.
  - destruct (delete_movie_outcome rid t) as [[_ ->]|[_ ->]]; simpl; eauto.
    eexists. split; [done|]. by apply well_formed_delete.
Qed.

Lemma serve_all_well_formed qs t :
  well_formed t → ∃ t', serve_all qs (Some t) = Some t' ∧ well_formed t'.
Proof.
  revert t. induction qs as [|q qs IH]; intros t Hwf; simpl; [eauto|].
  destruct (serve_well_formed q t Hwf) as (t1 & -> & Hwf1). eauto.
Qed.

Lemma countdown_bounds (k : nat) i : i ∈ countdown k → (1 ≤ i ≤ Z.of_nat k)%Z.
Proof.
  induction k as [|k IH]; [by intros ?%elem_of_nil|].
  cbn [countdown]. intros [->|Hin]%elem_of_cons; [lia|]. apply IH in Hin. lia.
Qed.

Lemma add_all_countdown ms t (k n : nat) s' :
  seq t = Z.of_nat k → (scan_desc t).*1 = countdown k →
  add_all ms (Some t) = (n, s') →
  ∃ t', s' = Some t' ∧ seq t' = Z.of_nat (k + n)
        ∧ (scan_desc t').*1 = countdown (k + n).
Proof.
  revert t k n s'. induction ms as [|m ms IH]; intros t k n s' Hseq Hids; simpl.
  { intros [= <- <-]. exists t. by rewrite Nat.add_0_r. }
  assert (∀ i m', rows t !! i = Some m' → (1 ≤ i ≤ Z.of_nat k)%Z) as Hbound.
  { intros i m' Hi%elem_of_scan_desc. apply countdown_bounds. rewrite <- Hids.
    by apply (list_elem_of_fmap_2 fst _ (i, m')). }
  assert (next_rowid t = Z.of_nat (S k)) as Hnext.
  { unfold next_rowid. pose proof (max_rowid_nonneg t).
    assert (max_rowid t ≤ Z.of_nat k)%Z; [|lia].
    apply max_rowid_le; [lia|]. intros i m' Hi. apply Hbound in Hi. lia. }
  destruct (add_record_outcome m t)
    as [[_ ->]|[(_ & _ & _ & ->)|(_ & _ & _ & ->)]];
    destruct (add_all ms _) as [n' s2] eqn:Hrest; intros [= <- <-].
  - by apply (IH t k).
  - by apply (IH t k).
  - apply (IH _ (S k)) in Hrest as (t' & -> & Hseq' & Hids').
    + exists t'. by rewrite Nat.add_succ_r.
    + by rewrite Hnext.
    + rewrite scan_desc_insert_fresh by apply next_rowid_above.
      rewrite fmap_cons, Hids, Hnext. done.
Qed.
End built_tables.

(** X9.  Whatever calls of [add_movie], [update_movie] and [delete_movie]
    are made on a new database, the table stays well formed: in the
    listing no two records share a [movie_id], no [movie_id] and no
    [movie_name] is empty, and every id is at least 1. *)
Theorem built_tables_well_formed (qs : list request) :
  ∃ t : table,
    serve_all qs (MovieDatabase_init None) = Some t
    ∧ well_formed t
    ∧ NoDup ((λ r : row, movie_id r.2) <$> (view_all_movies (Some t)).1)
    ∧ Forall (λ r : row, movie_id r.2 ≠ EmptyString
                         ∧ movie_name r.2 ≠ EmptyString ∧ (1 ≤ r.1)%Z)
             (view_all_movies (Some t)).1.
Proof.
  destruct (serve_all_well_formed qs empty_table well_formed_empty)
    as (t & Hrun & Hwf).
  exists t. split_and!; [done..| |]; simpl.
  - apply NoDup_fmap_2_strong; [|apply NoDup_scan_desc].
    intros [i m] [j m'] Hi%elem_of_scan_desc Hj%elem_of_scan_desc Heq.
    simpl in Heq. pose proof (wf_unique t Hwf i j m m' Hi Hj Heq) as ->.
    by simplify_eq.
  - apply Forall_forall. intros [i m] Hi%elem_of_scan_desc. simpl.
    destruct (wf_required t Hwf i m Hi). pose proof (wf_seq t Hwf i m Hi).
    split_and!; [done..|lia].
Qed.

(** X10.  Ids are not reused: after a stored record is deleted, the next
    record added gets an id larger than the deleted one and than every id
    in use, and the deleted id stays vacant. *)
Theorem deleted_id_not_reused (record_id : Z)
    (mid name rel dir cst bud dur rat : string) (t : table) :
  well_formed t →
  is_Some (rows t !! record_id) →
  mid ≠ EmptyString → name ≠ EmptyString →
  (∀ i m, rows t !! i = Some m → movie_id m = mid → i = record_id) →
  let s1 := (delete_movie record_id (Some t)).2 in
  ∃ (new_id : Z) (s2 : store),
    add_movie mid name rel dir cst bud dur rat s1
    = ((true, "Movie added successfully!"), s2)
    ∧ (record_id < new_id)%Z
    ∧ (∀ i m, rows t !! i = Some m → (i < new_id)%Z)
    ∧ get_movie_by_id record_id s2 = (None, s2)
    ∧ get_movie_by_id new_id s2
      = (Some (new_id, Movie mid name rel dir cst bud dur rat), s2).
Proof.
  intros Hwf Hsome Hmid%py_not_false Hname%py_not_false Hown s1.
  destruct (delete_movie_outcome record_id t) as [[Hnone _]|[_ Hdel]].
  { destruct Hsome. congruence. }
  subst s1. rewrite Hdel. cbn [snd].
  set (t1 := Table (delete record_id (rows t)) (seq t)).
  assert (∀ i m, rows t !! i = Some m → (i < next_rowid t1)%Z) as Habove.
  { intros i m Hi%(wf_seq t Hwf). unfold next_rowid, t1. cbn [seq]. lia. }
  exists (next_rowid t1). eexists. split_and!.
  - unfold add_movie. rewrite Hmid, Hname. cbn [orb].
    rewrite sql_insert_fresh; [done|].
    intros i m. unfold t1. cbn [rows].
    intros [Hne Hi]%lookup_delete_Some Hm. destruct Hne. symmetry. eauto.
  - destruct Hsome as [m0 Hrid]. eauto.
  - done.
  - unfold get_movie_by_id, sql_select_by_id. cbn [rows].
    destruct Hsome as [m0 Hrid]. apply Habove in Hrid.
    rewrite lookup_insert_ne by lia. unfold t1. cbn [rows].
    by rewrite lookup_delete_eq.
  - unfold get_movie_by_id, sql_select_by_id. cbn [rows].
    by rewrite lookup_insert_eq.
Qed.

Lemma well_formed_two_movies :
  well_formed (Table (<[ 2%Z := heat ]> {[ 1%Z := alien ]}) 2).
Proof.
  destruct (serve_all_well_formed [Add alien; Add heat] empty_table well_formed_empty)
    as (t & Hrun & Hwf).
  vm_compute in Hrun. by injection Hrun as <-.
Qed.

Lemma deleted_id_not_reused_witness :
  ∃ (new_id : Z) (s2 : store),
    add_movie "M2" "Heat" "1995" EmptyString EmptyString EmptyString
              EmptyString "5" (delete_movie 2 two_movies).2
    = ((true, "Movie added successfully!"), s2)
    ∧ (2 < new_id)%Z
    ∧ get_movie_by_id 2 s2 = (None, s2).
Proof.
  destruct (deleted_id_not_reused 2 "M2" "Heat" "1995" EmptyString EmptyString
              EmptyString EmptyString "5"
              (Table (<[ 2%Z := heat ]> {[ 1%Z := alien ]}) 2))
    as (new_id & s2 & Hadd & Hlt & _ & Hget & _).
  - apply well_formed_two_movies.
  - exists heat. reflexivity.
  - discriminate.
  - discriminate.
  - intros i m. simpl. rewrite lookup_insert, lookup_singleton.
    repeat case_decide; intros [= <-]; try discriminate; congruence.
  - exists new_id, s2. split_and!; [exact Hadd|exact Hlt|exact Hget].
Defined.

(** X11.  On a new database with no deletion, the ids handed out are 1, 2,
    3, ...: after a run of calls to [add_movie] of which [n] succeeded, the
    ids of the listing are [n], [n-1], ..., [1]. *)
Theorem add_all_ids (ms : list movie) :
  (view_all_movies (add_all ms (MovieDatabase_init None)).2).1.*1
  = countdown (add_all ms (MovieDatabase_init None)).1.
Proof.
  destruct (add_all ms (MovieDatabase_init None)) as [n s'] eqn:Hrun.
  apply (add_all_countdown ms empty_table 0 n) in Hrun as (t' & -> & _ & Hids);
    [done..|].
  vm_compute. reflexivity.
Qed.

(** X12.  Writing back what was read changes nothing: on a well-formed
    table, [update_movie] called with the id and the fields that
    [get_movie_by_id] returned succeeds and leaves the store as it was. *)
Theorem update_with_fetched_values (record_id : Z) (m : movie) (t : table) :
  well_formed t →
  (get_movie_by_id record_id (Some t)).1 = Some (record_id, m) →
  update_movie record_id (movie_id m) (movie_name m) (release_date m)
               (director m) (cast m) (budget m) (duration m) (rating m) (Some t)
  = ((true, "Movie updated successfully!"), Some t).
Proof.
  intros Hwf Hget.
  assert (rows t !! record_id = Some m) as Hrid.
  { unfold get_movie_by_id, sql_select_by_id in Hget. cbn [fst] in Hget.
    destruct (rows t !! record_id); simpl in Hget; by simplify_eq. }
  destruct (wf_required t Hwf record_id m Hrid) as [Hid Hname].
  destruct (update_record_outcome record_id m t)
    as [[Hempty _]|[(_ & _ & Hnone & _)|[(_ & _ & _ & (i & m' & Hne & Hi & Hm) & _)
       |(_ & _ & _ & _ & Hupd)]]].
  - by destruct Hempty.
  - congruence.
  - destruct Hne. by apply (wf_unique t Hwf i record_id m' m).
  - unfold update_record in Hupd. rewrite Hupd. do 2 f_equal.
    rewrite insert_id by done. by destruct t.
Qed.

Lemma update_with_fetched_values_witness :
  update_movie 2 "M2" "Heat" "1995" "Michael Mann" "Al Pacino" "60" "170" "4.5"
               two_movies
  = ((true, "Movie updated successfully!"), two_movies).
Proof.
  apply (update_with_fetched_values 2 heat
           (Table (<[ 2%Z := heat ]> {[ 1%Z := alien ]}) 2)).
  - apply well_formed_two_movies.
  - reflexivity.
Defined.

(** ** Searches *)

Section search_laws.
Implicit Types (kwargs : list (string * string)) (t : table) (s : store).
Implicit Types (conds : list (string * string)) (cs : list (column * string)).








Lemma compile_where_modelled conds :
  Forall (λ kp : string * string, read_key kp.1 ≠ Unmodelled) conds →
  compile_where conds ≠ NotModelled.
Proof.
  induction 1 as [|[k p] conds Hk _ IH]; simpl in *; [done|].
  destruct (read_key k), (compile_where conds); done.
Qed.

Lemma conditions_keys (P : string → Prop) kwargs :
  Forall (λ kv : string * string, P kv.1) kwargs →
  Forall (λ kp : string * string, P kp.1) (conditions kwargs).
Proof.
  induction 1 as [|[k v] kwargs Hk _ IH]; simpl; [done|].
  destruct (py_not v); [done|]. by constructor.
Qed.
End search_laws.





(** X15.  The form's search by cast finds nothing: whenever the cast
    argument of [SearchMovieData] is not empty, the result is the empty
    list, whatever the other arguments and whatever is stored. *)
Theorem SearchMovieData_cast (mid name rel dir cst bud dur rat : string) (s : store) :
  cst ≠ EmptyString →
  SearchMovieData mid name rel dir cst bud dur rat s = (Some [], s).
Proof.
  intros Hcst. unfold SearchMovieData.
  set (kwargs := [("movie_id", mid); ("movie_name", name); ("release_date", rel);
                  ("director", dir); ("cast", cst); ("budget", bud);
                  ("duration", dur); ("rating", rat)]).
  assert (("cast", "%" ++ cst ++ "%") ∈ conditions kwargs) as Hcond.
  { apply conditions_elem; [|done]. unfold kwargs. set_solver. }
  pose proof (compile_rejected "cast" _ _ Hcond eq_refl) as Hrej.
  assert (compile_where (conditions kwargs) ≠ NotModelled) as Hmod.
  { apply compile_where_modelled,
      (conditions_keys (λ k, read_key k ≠ Unmodelled)).
    unfold kwargs. repeat constructor; by vm_compute. }
  unfold search_movies, sql_select_where.
  destruct (conditions kwargs) as [|c conds]; [by apply elem_of_nil in Hcond|].
  by destruct (compile_where (c :: conds)).
Qed.

Lemma SearchMovieData_cast_witness :
  SearchMovieData EmptyString "Alien" EmptyString EmptyString "Sigourney"
                  EmptyString EmptyString EmptyString two_movies
  = (Some [], two_movies).
Proof. apply SearchMovieData_cast. discriminate. Defined.

(** ** Letter case and wildcards *)

Section letter_case.
Implicit Types (c d : ascii) (p t v k : string).















End letter_case.




(** ** Statistics after an insertion *)

Section statistics_after_add.
Context {F : Type} `{FloatOps F}.
Implicit Types (t : table) (m : movie) (i : Z).

#[local] Instance id_asc_total : Total id_asc.
Proof. intros r1 r2. unfold id_asc. lia. Qed.

#[local] Instance id_asc_trans : Transitive id_asc.
Proof. intros r1 r2 r3. unfold id_asc. lia. Qed.

Lemma scan_sorted t : StronglySorted (λ r1 r2 : row, (r1.1 < r2.1)%Z) (scan t).
Proof.
  assert (StronglySorted id_asc (scan t)) as Hs
    by (apply StronglySorted_merge_sort; apply _).
  assert (NoDup (scan t).*1) as Hnd
    by (rewrite scan_perm; apply NoDup_fst_map_to_list).
  induction Hs as [|r l Hs IH Hall]; [constructor|].
  rewrite fmap_cons, NoDup_cons in Hnd. destruct Hnd as [Hr Hnd].
  constructor; [by apply IH|].
  rewrite Forall_forall in Hall |- *. intros r' Hr'.
  specialize (Hall r' Hr'). unfold id_asc in Hall.
  assert (r'.1 ≠ r.1); [|lia].
  intros Heq. apply Hr. rewrite <- Heq. by apply list_elem_of_fmap_2.
Qed.

Lemma scan_insert_fresh t i m sq :
  (∀ j m', rows t !! j = Some m' → (j < i)%Z) →
  scan (Table (<[i := m]> (rows t)) sq) = (scan t ++ [(i, m)])%list.
Proof.
  intros Habove.
  assert (rows t !! i = None) as Hnone.
  { destruct (rows t !! i) as [m'|] eqn:E; [|done]. apply Habove in E. lia. }
  apply (StronglySorted_unique_strong (λ r1 r2 : row, (r1.1 < r2.1)%Z)).
  - intros r1 r2 _ _ H1 H2. lia.
  - apply scan_sorted.
  - apply StronglySorted_app. split_and!.
    + intros [j m'] r2 Hj%elem_of_scan ->%list_elem_of_singleton. simpl. eauto.
    + apply scan_sorted.
    + repeat constructor.
  - rewrite !scan_perm. cbn [rows]. rewrite map_to_list_insert by done.
    by rewrite Permutation_app_comm.
Qed.

Lemma get_statistics_values t :
  get_statistics (Some t)
  = (Statistics (Z.of_nat (size (rows t)))
       (reported match map cast_real (nonempty (ratings t)) with
                 | [] => None
                 | _ :: _ => Some (mean (map cast_real (nonempty (ratings t))))
                 end),
     Some t).
Proof.
  unfold get_statistics, sql_count, sql_avg_rating.
  rewrite rated_values, sql_avg_mean. fold (ratings t).
  by destruct (map cast_real (nonempty (ratings t))).
Qed.
End statistics_after_add.

(** X18.  What an insertion does to the statistics: after a successful
    [add_movie] the count is one more, and the values averaged are the
    ones averaged before, followed by the cast of the new rating when that
    rating is not empty.  A record without rating leaves the average as it
    was. *)
Theorem add_movie_statistics {F : Type} `{FloatOps F}
    (mid name rel dir cst bud dur rat : string) (t : table) :
  mid ≠ EmptyString → name ≠ EmptyString →
  (∀ i m, rows t !! i = Some m → movie_id m ≠ mid) →
  let before := map cast_real (nonempty (ratings t)) in
  let after := if py_not rat then before else (before ++ [cast_real rat])%list in
  let s' := (add_movie mid name rel dir cst bud dur rat (Some t)).2 in
  (get_statistics s').1
  = Statistics (total_movies (get_statistics (Some t)).1 + 1)
               (reported match after with
                         | [] => None
                         | _ :: _ => Some (mean after)
                         end)
  ∧ (rat = EmptyString →
     average_rating (get_statistics s').1
     = average_rating (get_statistics (Some t)).1).
Proof.
  intros Hmid%py_not_false Hname%py_not_false Hfresh before after s'.
  assert (s' = Some (Table (<[next_rowid t := Movie mid name rel dir cst bud dur rat]>
                             (rows t)) (next_rowid t))) as ->.
  { subst s'. unfold add_movie. rewrite Hmid, Hname. cbn [orb].
    by rewrite sql_insert_fresh. }
  rewrite !get_statistics_values. cbn [fst total_movies average_rating rows].
  rewrite map_size_insert_None by apply next_rowid_fresh.
  assert (map cast_real
            (nonempty (ratings (Table (<[next_rowid t := Movie mid name rel dir cst bud dur rat]>
                                         (rows t)) (next_rowid t))))
          = after) as ->.
  { unfold ratings. rewrite scan_insert_fresh by apply next_rowid_above.
    rewrite map_app. unfold nonempty. rewrite List.filter_app, map_app.
    subst after before. unfold ratings, nonempty. simpl.
    destruct (py_not rat); simpl; [by rewrite app_nil_r|done]. }
  split.
  - f_equal. lia.
  - intros ->. done.
Qed.

Lemma add_movie_statistics_witness :
  average_rating
    (get_statistics (F := Q)
       (add_movie "M3" "Blade Runner" "1982" EmptyString EmptyString
                  EmptyString EmptyString EmptyString two_movies).2).1
  = average_rating (get_statistics (F := Q) two_movies).1.
Proof.
  refine (proj2 (add_movie_statistics (F := Q) "M3" "Blade Runner" "1982"
                   EmptyString EmptyString EmptyString EmptyString EmptyString
                   (Table (<[ 2%Z := heat ]> {[ 1%Z := alien ]}) 2) _ _ _)
                eq_refl).
  - discriminate.
  - discriminate.
  - intros i m. simpl. rewrite lookup_insert, lookup_singleton.
    repeat case_decide; intros [= <-]; discriminate.
Defined.

(** ** Finding a record by what it holds *)

Section self_match.
Implicit Types (c d : ascii) (p t v : string).





End self_match.


